(** * PulseView start-up code ([main.cpp]): model and properties

    The file embeds [main], [usage] and [signal_handler] of [main.cpp] as
    Rocq functions.  A run of [main] is a list of observable events (calls
    into the collaborating libraries and output on the standard streams)
    together with the way the process ends.  The collaborators themselves
    (libsigrok, libsigrokdecode, Qt, the PulseView window classes) are not
    part of [main.cpp]; what they answer is given by an environment. *)

From Stdlib Require Import List String Ascii ZArith Bool Lia.
Import ListNotations.

#[local] Open Scope string_scope.
#[local] Open Scope Z_scope.
#[local] Open Scope list_scope.

(** ** Command line scanning: [getopt_long] *)

Module Getopt.

(** [struct option] of <getopt.h>.  The [flag] member is [nullptr] in every
    row of the table of [main], so [getopt_long] returns [val]. *)
Inductive has_arg_t := no_argument | required_argument.

Record long_option := {
  name : string;
  has_arg : has_arg_t;
  val : ascii
}.

(** What one call of [getopt_long] hands back: the return value [c], the
    global [optarg], and whether the library wrote its own complaint to the
    error stream ([opterr] is left at its default). *)
Record getopt_result := {
  c : ascii;
  optarg : string;
  diag : bool
}.

Definition plain (ch : ascii) : getopt_result :=
  {| c := ch; optarg := ""; diag := false |}.

Definition with_arg (ch : ascii) (a : string) : getopt_result :=
  {| c := ch; optarg := a; diag := false |}.

Definition complaint : getopt_result :=
  {| c := "?"%char; optarg := ""; diag := true |}.

(** [getopt_long] belongs to the C library, not to PulseView.  What
    follows is its behaviour as the manual page getopt_long(3) gives it, in
    the GNU default mode: words that are not options are moved behind the
    options, a lone double dash ends the options, short options may be
    bundled, a long option may be shortened to an unambiguous prefix and
    may carry its argument after an equals sign, and an option that takes
    an argument takes the next word whatever it looks like. *)
Fixpoint short_lookup (optstring : string) (ch : ascii) : option has_arg_t :=
  match optstring with
  | EmptyString => None
  | String x rest =>
      if Ascii.eqb x ch
      then Some (match rest with
                 | String ":" _ => required_argument
                 | _ => no_argument
                 end)
      else short_lookup rest ch
  end.

Definition short_spec (optstring : string) (ch : ascii) : option has_arg_t :=
  if Ascii.eqb ch ":" || Ascii.eqb ch ";" then None
  else short_lookup optstring ch.

Inductive lookup_t := Found (o : long_option) | NotFound | Ambiguous.

Definition long_lookup (table : list long_option) (nm : string) : lookup_t :=
  match find (fun o => String.eqb (name o) nm) table with
  | Some o => Found o
  | None =>
      match filter (fun o => String.prefix nm (name o)) table with
      | [] => NotFound
      | [o] => Found o
      | _ :: _ :: _ => Ambiguous
      end
  end.

Fixpoint split_eq (s : string) : string * option string :=
  match s with
  | EmptyString => (EmptyString, None)
  | String ch rest =>
      if Ascii.eqb ch "="
      then (EmptyString, Some rest)
      else let (n, v) := split_eq rest in (String ch n, v)
  end.

Inductive word_kind :=
| Terminator
| LongWord (body : string)
| ShortWord (cluster : string)
| Operand.

Definition classify (w : string) : word_kind :=
  match w with
  | String "-" (String "-" EmptyString) => Terminator
  | String "-" (String "-" body) => LongWord body
  | String "-" EmptyString => Operand
  | String "-" cluster => ShortWord cluster
  | _ => Operand
  end.

Section Scan.

Variable optstring : string.
Variable longopts : list long_option.

(** The results of one bundle of short options, and whether the following
    word was taken as the argument of its last option. *)
Fixpoint short_cluster (cs : string) (next : option string)
  : list getopt_result * bool :=
  match cs with
  | EmptyString => ([], false)
  | String ch rest =>
      match short_spec optstring ch with
      | None =>
          let (rs, used) := short_cluster rest next in (complaint :: rs, used)
      | Some no_argument =>
          let (rs, used) := short_cluster rest next in (plain ch :: rs, used)
      | Some required_argument =>
          match rest with
          | EmptyString =>
              match next with
              | Some a => ([with_arg ch a], true)
              | None => ([complaint], false)
              end
          | _ => ([with_arg ch rest], false)
          end
      end
  end.

Definition long_word (body : string) (next : option string)
  : getopt_result * bool :=
  let (nm, v) := split_eq body in
  match long_lookup longopts nm with
  | Found o =>
      match has_arg o, v with
      | no_argument, None => (plain (val o), false)
      | no_argument, Some _ => (complaint, false)
      | required_argument, Some a => (with_arg (val o) a, false)
      | required_argument, None =>
          match next with
          | Some a => (with_arg (val o) a, true)
          | None => (complaint, false)
          end
      end
  | NotFound | Ambiguous => (complaint, false)
  end.

(** The whole scan of the words behind [argv[0]]: the successive results,
    the words used up by options (in order) and the words left over. *)
Record scan_t := {
  results : list getopt_result;
  option_words : list string;
  operands : list string
}.

Definition took (rs : list getopt_result) (ws : list string) (s : scan_t) :=
  {| results := rs ++ results s;
     option_words := ws ++ option_words s;
     operands := operands s |}.

Fixpoint scan (ws : list string) : scan_t :=
  match ws with
  | [] => {| results := []; option_words := []; operands := [] |}
  | w :: rest =>
      match classify w with
      | Terminator =>
          {| results := []; option_words := [w]; operands := rest |}
      | Operand =>
          let s := scan rest in
          {| results := results s;
             option_words := option_words s;
             operands := w :: operands s |}
      | LongWord body =>
          let (r, used) := long_word body (hd_error rest) in
          match used, rest with
          | true, a :: rest' => took [r] [w; a] (scan rest')
          | _, _ => took [r] [w] (scan rest)
          end
      | ShortWord cluster =>
          let (rs, used) := short_cluster cluster (hd_error rest) in
          match used, rest with
          | true, a :: rest' => took rs [w; a] (scan rest')
          | _, _ => took rs [w] (scan rest)
          end
      end
  end.

(** The state [main] can observe once [getopt_long] has returned -1: the
    results it saw on the way, [argv] as the scan left it and [optind]. *)
Record parsed := {
  seen : list getopt_result;
  argv' : list string;
  optind : Z
}.

Definition getopt_long (argv : list string) : parsed :=
  match argv with
  | [] => {| seen := []; argv' := []; optind := 1 |}
  | a0 :: ws =>
      let s := scan ws in
      {| seen := results s;
         argv' := a0 :: option_words s ++ operands s;
         optind := 1 + Z.of_nat (List.length (option_words s)) |}
  end.

(** The words [getopt_long] leaves for the program. *)
Definition positionals (argv : list string) : list string :=
  operands (scan (tl argv)).

End Scan.

End Getopt.

(** ** [atoi] *)

Definition isspace (ch : ascii) : bool :=
  let n := Z.of_N (N_of_ascii ch) in
  (n =? 32) || ((9 <=? n) && (n <=? 13)).

Definition digit (ch : ascii) : option Z :=
  let n := Z.of_N (N_of_ascii ch) in
  if (48 <=? n) && (n <=? 57) then Some (n - 48) else None.

Fixpoint skip_space (s : string) : string :=
  match s with
  | String ch rest => if isspace ch then skip_space rest else s
  | EmptyString => s
  end.

Fixpoint digits (acc : Z) (s : string) : Z :=
  match s with
  | String ch rest =>
      match digit ch with
      | Some d => digits (10 * acc + d) rest
      | None => acc
      end
  | EmptyString => acc
  end.

Definition strtol10 (s : string) : Z :=
  match skip_space s with
  | String "-" rest => - digits 0 rest
  | String "+" rest => digits 0 rest
  | t => digits 0 t
  end.

Definition INT_MIN : Z := - 2 ^ 31.
Definition INT_MAX : Z := 2 ^ 31 - 1.

(** [atoi] belongs to the C library.  ISO C (7.22.1.2) defines it as the
    decimal [strtol] converted to [int], and leaves the behaviour undefined
    when the value does not fit a (32 bit) [int]: [None]. *)
Definition atoi (s : string) : option Z :=
  let v := strtol10 s in
  if (INT_MIN <=? v) && (v <=? INT_MAX) then Some v else None.


(** ** Build configuration and environment *)

(** The preprocessor symbols [main.cpp] tests, and the three strings of
    [config.h] it prints.  [ENABLE_STACKTRACE] is tested both with
    [#ifdef]/[#ifndef] and with [#if], so its value matters: [None] is
    "not defined", [Some n] is "defined as n".

    [empty_pointer_call_returns] is the one thing about a build that is
    not a symbol of [main.cpp]: C++ gives a member call through an empty
    [shared_ptr] no meaning, and whether such a call nevertheless comes
    back depends on how the program and its libraries are built.  Where
    the standard library checks the pointer it does not ([false]: the
    model stops at the call); in a plain build it does, the function
    called, [sigrok::Context::set_log_level], not using its object
    ([true]: the call is recorded and the run goes on). *)
Record build := {
  ENABLE_DECODE : bool;
  ENABLE_SIGNALS : bool;
  ENABLE_STACKTRACE : option Z;
  ANDROID : bool;
  PV_BIN_NAME : string;
  PV_TITLE : string;
  PV_VERSION_STRING : string;
  empty_pointer_call_returns : bool
}.

Definition ifdef (m : option Z) : bool :=
  match m with Some _ => true | None => false end.

Definition if_nonzero (m : option Z) : bool :=
  match m with Some n => negb (n =? 0) | None => false end.

(** C++ exceptions as the [catch (exception& e)] of [main] tells them
    apart. *)
Inductive exn := std_exception | other_exception.

(** The calls of [main] that the model lets raise; the other calls are
    taken to come back. *)
Inductive call :=
| CallContextCreate
| CallDeviceManager
| CallMainWindow
| CallShow
| CallRestoreSessions
| CallAddSessionWithFile
| CallAddDefaultSession
| CallExec.

Definition call_eqb (x y : call) : bool :=
  match x, y with
  | CallContextCreate, CallContextCreate
  | CallDeviceManager, CallDeviceManager
  | CallMainWindow, CallMainWindow
  | CallShow, CallShow
  | CallRestoreSessions, CallRestoreSessions
  | CallAddSessionWithFile, CallAddSessionWithFile
  | CallAddDefaultSession, CallAddDefaultSession
  | CallExec, CallExec => true
  | _, _ => false
  end.

(** What the collaborators answer during one run.  At most one call
    raises: the first exception ends the block it is raised in. *)
Record env := {
  srd_init_ok : bool;                 (* srd_init(nullptr) == SRD_OK *)
  prepare_signals_ok : bool;          (* SignalHandler::prepare_signals() *)
  exec_result : Z;                    (* the value of a.exec() *)
  temp_locations : list string;       (* QStandardPaths::standardLocations *)
  fault : option (call * exn)         (* the call that raises, if any *)
}.

(** ** Events *)

Inductive context_ptr := null_context | sr_context.

Inductive disposition := SIG_DFL | SIG_signal_handler.

(** Two macros of <signal.h>, with their values on Linux; the model only
    uses that they differ. *)
Definition SIGABRT : Z := 6.
Definition SIGSEGV : Z := 11.

Inductive event :=
| ApplicationNew
| SrauInitEnvironment
| AndroidInstallCallbacks
| AndroidAssetReaderNew
| GetoptMessage
| Stdout (text : string)
| Stderr (text : string)
| QDebug (text : string)
| QWarning (text : string)
| ContextSetLogLevel (ctx : context_ptr) (loglevel : Z)
| SrdLogLoglevelSet (loglevel : Z)
| GlobalSettingsNew
| SetDefaultsWhereNeeded
| LoggingInit
| ContextCreate
| SessionSetContext (ctx : context_ptr)
| AssignStacktraceFilename (path : string)
| Signal (signum : Z) (d : disposition)
| ContextSetResourceReader
| SrdInit (ok : bool)
| SrdDecoderLoadAll
| SrdExit
| DeviceManagerNew (ctx : context_ptr) (driver : string) (do_scan : bool)
| MainWindowNew
| MainWindowShow
| RestoreSessions
| AddSessionWithFile (file format : string)
| AddDefaultSession
| PrepareSignals (ok : bool)
| SignalHandlerNew
| ConnectIntReceived
| ConnectTermReceived
| Exec (result : Z)
| SafeDumpTo (path : string)
| Raise (signum : Z)
| KilledBy (signum : Z).

(** ** A monad for [main]: a trace, and how the block was left *)

Inductive result (A : Type) :=
| Normal (a : A)       (* ran to its end *)
| Return (code : Z)    (* a [return] statement of [main] *)
| Thrown (x : exn)     (* an exception is propagating *)
| Undefined.           (* the C++ standard gives the run no meaning *)

Arguments Normal {A} a.
Arguments Return {A} code.
Arguments Thrown {A} x.
Arguments Undefined {A}.

Definition M (A : Type) : Type := list event * result A.

Definition pure {A} (a : A) : M A := ([], Normal a).

Definition bind {A B} (m : M A) (k : A -> M B) : M B :=
  match snd m with
  | Normal a => (fst m ++ fst (k a), snd (k a))
  | Return code => (fst m, Return code)
  | Thrown x => (fst m, Thrown x)
  | Undefined => (fst m, Undefined)
  end.

Notation "x <- m ;; k" := (bind m (fun x => k))
  (at level 61, m at next level, right associativity).
Notation "m ;; k" := (bind m (fun _ => k))
  (at level 61, right associativity).

Definition emit (ev : event) : M unit := ([ev], Normal tt).
Definition return_ {A} (code : Z) : M A := ([], Return code).
Definition throw {A} (x : exn) : M A := ([], Thrown x).
Definition undefined {A} : M A := ([], Undefined).

Definition when (cond : bool) (m : M unit) : M unit :=
  if cond then m else pure tt.

(** [try { m } catch (exception& e) { handler }] *)
Definition try_catch {A} (m : M A) (handler : M A) : M A :=
  match snd m with
  | Thrown std_exception => (fst m ++ fst handler, snd handler)
  | _ => m
  end.

(** A call that the environment may make raise; [ev] records the call
    when it comes back. *)
Definition calling (e : env) (site : call) (ev : event) : M unit :=
  match fault e with
  | Some (s, x) => if call_eqb s site then throw x else emit ev
  | None => emit ev
  end.

(** How the process ends. *)
Inductive outcome :=
| Exit (code : Z)        (* [main] returned [code] *)
| Terminate              (* an exception left [main]: std::terminate *)
| UndefinedBehaviour.

Definition outcome_of (r : result Z) : outcome :=
  match r with
  | Normal code | Return code => Exit code
  | Thrown _ => Terminate
  | Undefined => UndefinedBehaviour
  end.

Definition run (m : M Z) : list event * outcome :=
  (fst m, outcome_of (snd m)).

(** ** [usage] *)

Definition nl : string := String (ascii_of_nat 10) EmptyString.

Fixpoint text_of_lines (ls : list string) : string :=
  match ls with
  | [] => ""
  | l :: rest => (l ++ nl ++ text_of_lines rest)%string
  end.

Definition usage_text (bin : string) : string :=
  text_of_lines
    [ "Usage:";
      ("  " ++ bin ++ " [OPTIONS] [FILE]")%string;
      "";
      "Help Options:";
      "  -h, -?, --help                  Show help option";
      "";
      "Application Options:";
      "  -V, --version                   Show release version";
      "  -l, --loglevel                  Set libsigrok/libsigrokdecode loglevel";
      "  -d, --driver                    Specify the device driver to use";
      "  -D, --no-scan                   Don't auto-scan for devices, use -d spec only";
      "  -i, --input-file                Load input from file";
      "  -I, --input-format              Input format";
      "  -c, --clean                     Don't restore previous sessions on startup";
      "  -s, --log-to-stdout             Don't use logging, output to stdout instead";
      "" ].

Definition usage (b : build) : M unit :=
  emit (Stdout (usage_text (PV_BIN_NAME b))).

Definition version_text (b : build) : string :=
  (PV_TITLE b ++ " " ++ PV_VERSION_STRING b ++ nl)%string.

(** ** [main] *)

(** The local variables of [main]. *)
Record vars := {
  ret : Z;
  context : context_ptr;
  open_file : string;
  open_file_format : string;
  driver : string;
  restore_sessions : bool;
  do_scan : bool;
  do_logging : bool
}.

Definition initial_vars : vars :=
  {| ret := 0;
     context := null_context;
     open_file := "";
     open_file_format := "";
     driver := "";
     restore_sessions := true;
     do_scan := true;
     do_logging := true |}.

Definition set_context (v : vars) (p : context_ptr) : vars :=
  {| ret := ret v; context := p; open_file := open_file v;
     open_file_format := open_file_format v; driver := driver v;
     restore_sessions := restore_sessions v; do_scan := do_scan v;
     do_logging := do_logging v |}.

Definition set_open_file (v : vars) (s : string) : vars :=
  {| ret := ret v; context := context v; open_file := s;
     open_file_format := open_file_format v; driver := driver v;
     restore_sessions := restore_sessions v; do_scan := do_scan v;
     do_logging := do_logging v |}.

Definition set_open_file_format (v : vars) (s : string) : vars :=
  {| ret := ret v; context := context v; open_file := open_file v;
     open_file_format := s; driver := driver v;
     restore_sessions := restore_sessions v; do_scan := do_scan v;
     do_logging := do_logging v |}.

Definition set_driver (v : vars) (s : string) : vars :=
  {| ret := ret v; context := context v; open_file := open_file v;
     open_file_format := open_file_format v; driver := s;
     restore_sessions := restore_sessions v; do_scan := do_scan v;
     do_logging := do_logging v |}.

Definition set_restore_sessions (v : vars) (x : bool) : vars :=
  {| ret := ret v; context := context v; open_file := open_file v;
     open_file_format := open_file_format v; driver := driver v;
     restore_sessions := x; do_scan := do_scan v;
     do_logging := do_logging v |}.

Definition set_do_scan (v : vars) (x : bool) : vars :=
  {| ret := ret v; context := context v; open_file := open_file v;
     open_file_format := open_file_format v; driver := driver v;
     restore_sessions := restore_sessions v; do_scan := x;
     do_logging := do_logging v |}.

Definition set_do_logging (v : vars) (x : bool) : vars :=
  {| ret := ret v; context := context v; open_file := open_file v;
     open_file_format := open_file_format v; driver := driver v;
     restore_sessions := restore_sessions v; do_scan := do_scan v;
     do_logging := x |}.

Definition optstring : string := "h?VDcsl:d:i:I:".

Definition long_options : list Getopt.long_option :=
  [ Getopt.Build_long_option "help" Getopt.no_argument "h";
    Getopt.Build_long_option "version" Getopt.no_argument "V";
    Getopt.Build_long_option "loglevel" Getopt.required_argument "l";
    Getopt.Build_long_option "driver" Getopt.required_argument "d";
    Getopt.Build_long_option "input-file" Getopt.required_argument "i";
    Getopt.Build_long_option "input-format" Getopt.required_argument "I";
    Getopt.Build_long_option "clean" Getopt.no_argument "c";
    Getopt.Build_long_option "log-to-stdout" Getopt.no_argument "s" ].

(** [context->set_log_level(...)]: a call through the shared pointer
    [context].  Through an empty pointer the call has no defined meaning
    in C++; the model records the attempt and, unless the build is one in
    which such a call comes back, stops there. *)
Definition context_set_log_level (b : build) (p : context_ptr)
  (loglevel : Z) : M unit :=
  match p with
  | sr_context => emit (ContextSetLogLevel sr_context loglevel)
  | null_context =>
      emit (ContextSetLogLevel null_context loglevel) ;;
      if empty_pointer_call_returns b then pure tt else undefined
  end.

Definition invalid_log_level : string := "ERROR: invalid log level spec.".

(** The [switch (c)] of the argument loop. *)
Definition switch_c (b : build) (o : Getopt.getopt_result) (v : vars)
  : M vars :=
  let ch := Getopt.c o in
  let optarg := Getopt.optarg o in
  if Ascii.eqb ch "h" || Ascii.eqb ch "?" then
    usage b ;; return_ 0
  else if Ascii.eqb ch "V" then
    emit (Stdout (version_text b)) ;; return_ 0
  else if Ascii.eqb ch "l" then
    match atoi optarg with
    | None => undefined
    | Some loglevel =>
        if (loglevel <? 0) || (loglevel >? 5) then
          emit (QDebug invalid_log_level) ;; pure v
        else
          context_set_log_level b (context v) loglevel ;;
          when (ENABLE_DECODE b) (emit (SrdLogLoglevelSet loglevel)) ;;
          when (loglevel >=? 5) (emit (QDebug "Settings:")) ;;
          pure v
    end
  else if Ascii.eqb ch "d" then pure (set_driver v optarg)
  else if Ascii.eqb ch "D" then pure (set_do_scan v false)
  else if Ascii.eqb ch "i" then pure (set_open_file v optarg)
  else if Ascii.eqb ch "I" then pure (set_open_file_format v optarg)
  else if Ascii.eqb ch "c" then pure (set_restore_sessions v false)
  else if Ascii.eqb ch "s" then pure (set_do_logging v false)
  else pure v.

(** The [while (true)] loop over the results of [getopt_long]; the empty
    list is the result -1. *)
Fixpoint parse_loop (b : build) (rs : list Getopt.getopt_result) (v : vars)
  : M vars :=
  match rs with
  | [] => pure v
  | o :: rest =>
      when (Getopt.diag o) (emit GetoptMessage) ;;
      v' <- switch_c b o v ;;
      parse_loop b rest v'
  end.

Definition only_one_file : string :=
  ("Only one file can be opened." ++ nl)%string.

(** Lines 108 to 199: everything up to the point where the local
    variables hold the configuration.  [argv] is the vector as the
    constructor of [Application] leaves it. *)
Definition configure (b : build) (argv : list string) : M vars :=
  emit ApplicationNew ;;
  when (ANDROID b)
    (emit SrauInitEnvironment ;;
     emit AndroidInstallCallbacks ;;
     emit AndroidAssetReaderNew) ;;
  let g := Getopt.getopt_long optstring long_options argv in
  v <- parse_loop b (Getopt.seen g) initial_vars ;;
  let argc := Z.of_nat (List.length argv) in
  if argc - Getopt.optind g >? 1 then
    emit (Stderr only_one_file) ;; return_ 1
  else
    pure (if argc - Getopt.optind g =? 1
          then set_open_file v (nth (Z.to_nat (argc - 1)) (Getopt.argv' g) "")
          else v).

Definition empty (s : string) : bool :=
  match s with EmptyString => true | String _ _ => false end.

Definition decode_init_failed : string :=
  "ERROR: libsigrokdecode init failed.".

Definition no_signal_handler : string :=
  "Could not prepare signal handler.".

(** The body of the [try] block, lines 242 to 269; its value is what is
    assigned to [ret]. *)
Definition window (b : build) (e : env) (v : vars) : M Z :=
  calling e CallDeviceManager
    (DeviceManagerNew (context v) (driver v) (do_scan v)) ;;
  calling e CallMainWindow MainWindowNew ;;
  calling e CallShow MainWindowShow ;;
  when (restore_sessions v) (calling e CallRestoreSessions RestoreSessions) ;;
  (if negb (empty (open_file v))
   then calling e CallAddSessionWithFile
          (AddSessionWithFile (open_file v) (open_file_format v))
   else calling e CallAddDefaultSession AddDefaultSession) ;;
  when (ENABLE_SIGNALS b)
    (if prepare_signals_ok e
     then emit (PrepareSignals true) ;;
          emit SignalHandlerNew ;;
          emit ConnectIntReceived ;;
          emit ConnectTermReceived
     else emit (PrepareSignals false) ;;
          emit (QWarning no_signal_handler)) ;;
  calling e CallExec (Exec (exec_result e)) ;;
  pure (exec_result e).

(** Lines 225 to 282, the [do { ... } while (false)]; its value is [ret]
    at the end. *)
Definition decode_and_run (b : build) (e : env) (v : vars) : M Z :=
  if ENABLE_DECODE b && negb (srd_init_ok e) then
    emit (SrdInit false) ;;
    emit (QDebug decode_init_failed) ;;
    pure (ret v)                                            (* break *)
  else
    when (ENABLE_DECODE b) (emit (SrdInit true) ;; emit SrdDecoderLoadAll) ;;
    r <- (if ifdef (ENABLE_STACKTRACE b)
          then window b e v
          else try_catch (window b e v)
                 (emit (QDebug "Exception:") ;; pure (ret v))) ;;
    when (ENABLE_DECODE b) (emit SrdExit) ;;
    pure r.

Definition stacktrace_file (temp_path : string) : string :=
  (temp_path ++ "/pv_stacktrace.dmp")%string.

(** Lines 201 to 224: settings, logging, the libsigrok context and the
    fault handlers.  The value is the variables with [context] assigned. *)
Definition bring_up (b : build) (e : env) (v : vars) : M vars :=
  emit GlobalSettingsNew ;;
  emit SetDefaultsWhereNeeded ;;
  when (do_logging v) (emit LoggingInit) ;;
  calling e CallContextCreate ContextCreate ;;
  let v := set_context v sr_context in
  emit (SessionSetContext (context v)) ;;
  (if if_nonzero (ENABLE_STACKTRACE b) then
     match temp_locations e with
     | [] => undefined                                      (* .at(0) *)
     | temp_path :: _ =>
         emit (AssignStacktraceFilename (stacktrace_file temp_path)) ;;
         emit (QDebug ("Stack trace file is "
                       ++ stacktrace_file temp_path)%string) ;;
         emit (Signal SIGSEGV SIG_signal_handler) ;;
         emit (Signal SIGABRT SIG_signal_handler)
     end
   else pure tt) ;;
  when (ANDROID b) (emit ContextSetResourceReader) ;;
  pure v.

Definition main (b : build) (e : env) (argv : list string)
  : list event * outcome :=
  run (v <- configure b argv ;;
       v <- bring_up b e v ;;
       decode_and_run b e v).

Definition trace (b : build) (e : env) (argv : list string) : list event :=
  fst (main b e argv).

Definition ending (b : build) (e : env) (argv : list string) : outcome :=
  snd (main b e argv).

(** ** [signal_handler] *)

(** What a fault handler depends on: the table of signal dispositions and
    the global [stacktrace_filename]. *)
Record process := {
  handlers : Z -> disposition;
  stacktrace_filename : string
}.

Definition initial_process : process :=
  {| handlers := fun _ => SIG_DFL; stacktrace_filename := "" |}.

(** [::signal(signum, d)] *)
Definition signal (signum : Z) (d : disposition) (p : process) : process :=
  {| handlers := fun s => if s =? signum then d else handlers p s;
     stacktrace_filename := stacktrace_filename p |}.

Definition assign_stacktrace_filename (path : string) (p : process)
  : process :=
  {| handlers := handlers p; stacktrace_filename := path |}.

(** The process state a run of [main] has built up. *)
Definition replay (p : process) (ev : event) : process :=
  match ev with
  | Signal signum d => signal signum d p
  | AssignStacktraceFilename path => assign_stacktrace_filename path p
  | _ => p
  end.

Definition process_after (tr : list event) : process :=
  fold_left replay tr initial_process.

Section Handler.

(** [::raise], which may come back into the handler. *)
Variable raise : Z -> process -> option (list event).

Definition signal_handler (signum : Z) (p : process) : option (list event) :=
  let p := signal signum SIG_DFL p in
  match raise SIGABRT p with
  | Some t =>
      Some (Signal signum SIG_DFL
            :: SafeDumpTo (stacktrace_filename p)
            :: Raise SIGABRT
            :: t)
  | None => None
  end.

End Handler.

(** Delivery of one of the two fault signals, by the system or by
    [::raise]: the default action ends the process, an installed handler
    is run.  [fuel] bounds the nesting of handlers; [None] is "not
    enough". *)
Fixpoint deliver (fuel : nat) (signum : Z) (p : process)
  : option (list event) :=
  match fuel with
  | O => None
  | S n =>
      match handlers p signum with
      | SIG_DFL => Some [KilledBy signum]
      | SIG_signal_handler => signal_handler (deliver n) signum p
      end
  end.

(** ** Classes of events *)

(** The events that bring up or use one of the subsystems behind the
    option parser. *)
Definition subsystem (ev : event) : bool :=
  match ev with
  | GlobalSettingsNew | SetDefaultsWhereNeeded | LoggingInit
  | ContextCreate | SessionSetContext _
  | AssignStacktraceFilename _ | Signal _ _
  | ContextSetResourceReader
  | SrdInit _ | SrdDecoderLoadAll | SrdExit
  | DeviceManagerNew _ _ _ | MainWindowNew | MainWindowShow
  | RestoreSessions | AddSessionWithFile _ _ | AddDefaultSession
  | PrepareSignals _ | SignalHandlerNew
  | ConnectIntReceived | ConnectTermReceived
  | Exec _ => true
  | _ => false
  end.

Definition session_event (ev : event) : bool :=
  match ev with
  | RestoreSessions | AddSessionWithFile _ _ | AddDefaultSession => true
  | _ => false
  end.

(** The Device Manager, the Main Window and the Event Loop. *)
Definition window_event (ev : event) : bool :=
  match ev with
  | DeviceManagerNew _ _ _ | MainWindowNew | MainWindowShow | Exec _ => true
  | _ => false
  end.

Definition is_exec (ev : event) : bool :=
  match ev with Exec _ => true | _ => false end.

Definition is_srd_exit (ev : event) : bool :=
  match ev with SrdExit => true | _ => false end.

Definition is_srd_init (ok : bool) (ev : event) : bool :=
  match ev with SrdInit ok' => Bool.eqb ok ok' | _ => false end.

Definition is_exception_caught (ev : event) : bool :=
  match ev with QDebug text => String.eqb text "Exception:" | _ => false end.

Definition is_set_log_level (ev : event) : bool :=
  match ev with
  | ContextSetLogLevel _ _ | SrdLogLoglevelSet _ => true
  | _ => false
  end.

Definition count (f : event -> bool) (tr : list event) : nat :=
  List.length (filter f tr).

Definition occurs (f : event -> bool) (tr : list event) : bool :=
  existsb f tr.

(** ** Classes of options *)

Definition is_help (o : Getopt.getopt_result) : bool :=
  Ascii.eqb (Getopt.c o) "h" || Ascii.eqb (Getopt.c o) "?".

Definition is_version (o : Getopt.getopt_result) : bool :=
  Ascii.eqb (Getopt.c o) "V".

Definition is_loglevel (o : Getopt.getopt_result) : bool :=
  Ascii.eqb (Getopt.c o) "l".

(** The range test of line 149. *)
Definition out_of_range (loglevel : Z) : bool :=
  (loglevel <? 0) || (loglevel >? 5).

Definition rejected_level (o : Getopt.getopt_result) : bool :=
  match atoi (Getopt.optarg o) with
  | Some loglevel => out_of_range loglevel
  | None => false
  end.

(** An option the loop deals with and goes on: neither help nor version,
    and a log level only when the range test turns it down. *)
Definition goes_on (o : Getopt.getopt_result) : bool :=
  negb (is_help o) && negb (is_version o)
  && (negb (is_loglevel o) || rejected_level o).

(** Reference builds and environments for the examples.  The first two
    are builds that stop at a call through an empty pointer, the third is
    the first with such calls coming back. *)
Definition desktop : build :=
  {| ENABLE_DECODE := true;
     ENABLE_SIGNALS := true;
     ENABLE_STACKTRACE := None;
     ANDROID := false;
     PV_BIN_NAME := "pulseview";
     PV_TITLE := "PulseView";
     PV_VERSION_STRING := "0.5.0";
     empty_pointer_call_returns := false |}.

Definition desktop_stacktrace : build :=
  {| ENABLE_DECODE := true;
     ENABLE_SIGNALS := true;
     ENABLE_STACKTRACE := Some 1;
     ANDROID := false;
     PV_BIN_NAME := "pulseview";
     PV_TITLE := "PulseView";
     PV_VERSION_STRING := "0.5.0";
     empty_pointer_call_returns := false |}.


Definition quiet : env :=
  {| srd_init_ok := true;
     prepare_signals_ok := true;
     exec_result := 0;
     temp_locations := ["/tmp"];
     fault := None |}.

Definition no_decoders : env :=
  {| srd_init_ok := false;
     prepare_signals_ok := true;
     exec_result := 0;
     temp_locations := ["/tmp"];
     fault := None |}.

Definition failing (site : call) (x : exn) : env :=
  {| srd_init_ok := true;
     prepare_signals_ok := true;
     exec_result := 0;
     temp_locations := ["/tmp"];
     fault := Some (site, x) |}.

(** ** Vocabulary of the statements *)

(** A property of every event of a block. *)
Definition every (P : event -> Prop) {A} (m : M A) : Prop :=
  Forall P (fst m).

(** The options [getopt_long] hands to the loop, and the words it leaves
    over, for the option table of [main]. *)
Definition parsed_options (argv : list string) : list Getopt.getopt_result :=
  Getopt.seen (Getopt.getopt_long optstring long_options argv).

Definition positionals (argv : list string) : list string :=
  Getopt.positionals optstring long_options argv.

(** What happens before the argument loop. *)
Definition prelude (b : build) : list event :=
  ApplicationNew
  :: (if ANDROID b
      then [SrauInitEnvironment; AndroidInstallCallbacks;
            AndroidAssetReaderNew]
      else []).

(** The events of the argument phase. *)
Definition parse_event (ev : event) : bool :=
  match ev with
  | ApplicationNew | SrauInitEnvironment | AndroidInstallCallbacks
  | AndroidAssetReaderNew | GetoptMessage | Stdout _ | Stderr _
  | ContextSetLogLevel _ _ | SrdLogLoglevelSet _ => true
  | QDebug text =>
      String.eqb text invalid_log_level || String.eqb text "Settings:"
  | _ => false
  end.

(** The events that tell nothing about sessions, the window, the decoder
    engine or a caught exception. *)
Definition quiet_event (ev : event) : bool :=
  negb (session_event ev || window_event ev || is_srd_exit ev
        || is_srd_init true ev || is_srd_init false ev
        || is_exception_caught ev).

Definition quiet_trace (t : list event) : Prop :=
  Forall (fun ev => quiet_event ev = true) t.

Definition decoder_event (ev : event) : bool :=
  is_srd_exit ev || is_srd_init true ev || is_srd_init false ev
  || is_exception_caught ev.

(** A call of the log level setter through a pointer that holds a
    context. *)
Definition on_live_context (ev : event) : bool :=
  match ev with
  | ContextSetLogLevel sr_context _ => true
  | _ => false
  end.

(** Events that leave the signal dispositions and the dump file name as
    they are. *)
Definition neutral (ev : event) : bool :=
  match ev with
  | Signal _ _ | AssignStacktraceFilename _ => false
  | _ => true
  end.

(** What the loop prints for the options it goes on from, and what it
    assigns. *)
Definition option_messages (o : Getopt.getopt_result) : list event :=
  (if Getopt.diag o then [GetoptMessage] else [])
  ++ (if is_loglevel o then [QDebug invalid_log_level] else []).

Definition loop_messages (rs : list Getopt.getopt_result) : list event :=
  flat_map option_messages rs.

Definition assign (v : vars) (o : Getopt.getopt_result) : vars :=
  let ch := Getopt.c o in
  if Ascii.eqb ch "d" then set_driver v (Getopt.optarg o)
  else if Ascii.eqb ch "D" then set_do_scan v false
  else if Ascii.eqb ch "i" then set_open_file v (Getopt.optarg o)
  else if Ascii.eqb ch "I" then set_open_file_format v (Getopt.optarg o)
  else if Ascii.eqb ch "c" then set_restore_sessions v false
  else if Ascii.eqb ch "s" then set_do_logging v false
  else v.

(** What help and version print. *)
Definition final_text (b : build) (o : Getopt.getopt_result) : string :=
  if is_help o then usage_text (PV_BIN_NAME b) else version_text b.

(** The sessions the window is given. *)
Definition sessions (v : vars) : list event :=
  (if restore_sessions v then [RestoreSessions] else [])
  ++ [if empty (open_file v)
      then AddDefaultSession
      else AddSessionWithFile (open_file v) (open_file_format v)].

Definition decoder_up (b : build) : list event :=
  if ENABLE_DECODE b then [SrdInit true; SrdDecoderLoadAll] else [].

Definition decoder_down (b : build) : list event :=
  if ENABLE_DECODE b then [SrdExit] else [].

(** The four ways through the do-block. *)
Inductive through (b : build) (e : env) (v : vars)
  : list event -> result Z -> Prop :=
| init_failed :
    ENABLE_DECODE b = true -> srd_init_ok e = false ->
    through b e v [SrdInit false; QDebug decode_init_failed] (Normal (ret v))
| loop_returned :
    ENABLE_DECODE b && negb (srd_init_ok e) = false ->
    snd (window b e v) = Normal (exec_result e) ->
    through b e v
      (decoder_up b ++ fst (window b e v) ++ decoder_down b)
      (Normal (exec_result e))
| exception_caught :
    ENABLE_DECODE b && negb (srd_init_ok e) = false ->
    ENABLE_STACKTRACE b = None ->
    snd (window b e v) = Thrown std_exception ->
    through b e v
      (decoder_up b ++ fst (window b e v)
       ++ [QDebug "Exception:"] ++ decoder_down b)
      (Normal (ret v))
| exception_escapes x :
    ENABLE_DECODE b && negb (srd_init_ok e) = false ->
    ENABLE_STACKTRACE b <> None \/ x = other_exception ->
    snd (window b e v) = Thrown x ->
    through b e v (decoder_up b ++ fst (window b e v)) (Thrown x).

(** Modelled from the spec: the tri-state the specification gives each
    optional subsystem; [main.cpp] has no variable for it. *)
Inductive lifecycle_state := NotRequested | InitFailed | Ready.

(** Modelled from the spec: the state of the decoder engine, read off the
    calls of [srd_init] in the trace. *)
Definition decoder_state (tr : list event) : lifecycle_state :=
  if occurs (is_srd_init true) tr then Ready
  else if occurs (is_srd_init false) tr then InitFailed
  else NotRequested.

(** The process state once both handlers are installed. *)
Definition installed (path : string) (p : process) : Prop :=
  handlers p SIGABRT = SIG_signal_handler
  /\ handlers p SIGSEGV = SIG_signal_handler
  /\ stacktrace_filename p = path.

(** ** Statements of the specification that [main.cpp] does not meet *)

(** After a failed [srd_init] the run still builds the device manager and
    the main window and enters the event loop. *)
Definition init_failure_still_runs : Prop :=
  forall b e argv,
    occurs (is_srd_init false) (trace b e argv) = true ->
    occurs window_event (trace b e argv) = true
    /\ occurs is_exec (trace b e argv) = true.


(** A word for help or version anywhere in the argument vector ends the
    run with code 0 and no subsystem. *)
Definition help_word_ends_run : Prop :=
  forall b e argv,
    In "--help" argv \/ In "-h" argv \/ In "-?" argv
    \/ In "--version" argv \/ In "-V" argv ->
    ending b e argv = Exit 0 /\ occurs subsystem (trace b e argv) = false.

(** Two or more positional arguments always end the run with the
    diagnostic and code 1. *)
Definition two_files_end_run : Prop :=
  forall b e argv,
    (2 <= List.length (positionals argv))%nat ->
    In (Stderr only_one_file) (trace b e argv) /\ ending b e argv = Exit 1.

(** The fault handler raises the signal it was called for. *)
Definition handler_raises_its_signal : Prop :=
  forall p signum n,
    signum = SIGABRT \/ signum = SIGSEGV ->
    handlers p signum = SIG_signal_handler ->
    (3 <= n)%nat ->
    exists rest,
      deliver n signum p
      = Some (Signal signum SIG_DFL
              :: SafeDumpTo (stacktrace_filename p)
              :: Raise signum
              :: rest).

(** ** Vocabulary of the further properties *)

(** Whether an option was given, and the argument of its last
    occurrence. *)
Definition given (ch : ascii) (rs : list Getopt.getopt_result) : bool :=
  existsb (fun o => Ascii.eqb (Getopt.c o) ch) rs.

Definition last_arg (ch : ascii) (rs : list Getopt.getopt_result)
  (default : string) : string :=
  fold_left
    (fun acc o => if Ascii.eqb (Getopt.c o) ch then Getopt.optarg o else acc)
    rs default.

(** The variables as a list of options leaves them. *)
Definition configuration (rs : list Getopt.getopt_result) : vars :=
  {| ret := 0;
     context := null_context;
     open_file := last_arg "i" rs "";
     open_file_format := last_arg "I" rs "";
     driver := last_arg "d" rs "";
     restore_sessions := negb (given "c" rs);
     do_scan := negb (given "D" rs);
     do_logging := negb (given "s" rs) |}.

Fixpoint starts_with (p s : string) {struct p} : bool :=
  match p with
  | EmptyString => true
  | String a p' =>
      match s with
      | String b s' => Ascii.eqb a b && starts_with p' s'
      | EmptyString => false
      end
  end.

Fixpoint contains (needle hay : string) {struct hay} : bool :=
  starts_with needle hay
  || match hay with
     | EmptyString => false
     | String _ rest => contains needle rest
     end.

(** The events of lines 201 to 224. *)
Definition bring_up_event (ev : event) : bool :=
  match ev with
  | GlobalSettingsNew | SetDefaultsWhereNeeded | LoggingInit
  | ContextCreate | SessionSetContext _
  | AssignStacktraceFilename _ | Signal _ _
  | ContextSetResourceReader => true
  | QDebug text => starts_with "Stack trace file is " text
  | _ => false
  end.

(** The events of the [try] block. *)
Definition window_block_event (ev : event) : bool :=
  match ev with
  | DeviceManagerNew _ _ _ | MainWindowNew | MainWindowShow
  | RestoreSessions | AddSessionWithFile _ _ | AddDefaultSession
  | PrepareSignals _ | SignalHandlerNew
  | ConnectIntReceived | ConnectTermReceived
  | QWarning _ | Exec _ => true
  | _ => false
  end.

(** The events of lines 225 to 282. *)
Definition do_block_event (ev : event) : bool :=
  match ev with
  | SrdInit _ | SrdDecoderLoadAll | SrdExit => true
  | QDebug text =>
      String.eqb text decode_init_failed || String.eqb text "Exception:"
  | _ => window_block_event ev
  end.

Definition adds_session (ev : event) : bool :=
  match ev with
  | AddSessionWithFile _ _ | AddDefaultSession => true
  | _ => false
  end.

Definition is_dump (ev : event) : bool :=
  match ev with SafeDumpTo _ => true | _ => false end.

Definition is_signal (ev : event) : bool :=
  match ev with Signal _ _ => true | _ => false end.

Definition is_stderr (ev : event) : bool :=
  match ev with Stderr _ => true | _ => false end.

(** ** Options in a build where a call through the empty pointer returns *)

(** What an accepted log level sets off: the call on [context], the call
    of libsigrokdecode in a build that has it, and the line about the
    settings at level 5. *)
Definition level_events (b : build) (loglevel : Z) : list event :=
  ContextSetLogLevel null_context loglevel
  :: (if ENABLE_DECODE b then [SrdLogLoglevelSet loglevel] else [])
  ++ (if loglevel >=? 5 then [QDebug "Settings:"] else []).

(** An option the loop deals with and goes on from in build [b]: as
    [goes_on], and also a log level that passes the range test when the
    call through the empty pointer comes back. *)
Definition continues (b : build) (o : Getopt.getopt_result) : bool :=
  negb (is_help o) && negb (is_version o)
  && (negb (is_loglevel o)
      || match atoi (Getopt.optarg o) with
         | Some loglevel =>
             out_of_range loglevel || empty_pointer_call_returns b
         | None => false
         end).


(** What the loop does for such an option. *)
Definition option_events (b : build) (o : Getopt.getopt_result)
  : list event :=
  (if Getopt.diag o then [GetoptMessage] else [])
  ++ (if is_loglevel o
      then match atoi (Getopt.optarg o) with
           | Some loglevel =>
               if out_of_range loglevel
               then [QDebug invalid_log_level]
               else level_events b loglevel
           | None => []
           end
      else []).

Definition loop_events (b : build) (rs : list Getopt.getopt_result)
  : list event :=
  flat_map (option_events b) rs.


(** * Properties *)

(** ** The monad *)

Lemma bind_normal {A B} (m : M A) (k : A -> M B) t a :
  m = (t, Normal a) -> bind m k = (t ++ fst (k a), snd (k a)).
Proof. intros ->. reflexivity. Qed.

Lemma bind_emit {B} ev (k : unit -> M B) :
  bind (emit ev) k = (ev :: fst (k tt), snd (k tt)).
Proof. reflexivity. Qed.

Lemma bind_pure {A B} (a : A) (k : A -> M B) : bind (pure a) k = k a.
Proof. unfold bind, pure. simpl. destruct (k a). reflexivity. Qed.

(** A property of every event of a block follows from the same property
    of its parts. *)
Section TraceInvariant.

Variable P : event -> Prop.

Lemma every_pure {A} (a : A) : every P (pure a).
Proof. constructor. Qed.

Lemma every_return {A} code : every P (@return_ A code).
Proof. constructor. Qed.

Lemma every_throw {A} x : every P (@throw A x).
Proof. constructor. Qed.

Lemma every_undefined {A} : every P (@undefined A).
Proof. constructor. Qed.

Lemma every_emit ev : P ev -> every P (emit ev).
Proof. intros H. repeat constructor. exact H. Qed.

Lemma every_bind {A B} (m : M A) (k : A -> M B) :
  every P m -> (forall a, every P (k a)) -> every P (bind m k).
Proof.
  unfold every, bind. intros Hm Hk.
  destruct (snd m); simpl; try assumption.
  apply Forall_app. split; [assumption | apply Hk].
Qed.

Lemma every_when cond m : every P m -> every P (when cond m).
Proof. destruct cond; simpl; auto using every_pure. Qed.

Lemma every_calling e site ev : P ev -> every P (calling e site ev).
Proof.
  intros H. unfold calling.
  destruct (fault e) as [[s x]|]; [destruct (call_eqb s site)|];
    auto using every_emit, every_throw.
Qed.

Lemma every_try_catch {A} (m h : M A) :
  every P m -> every P h -> every P (try_catch m h).
Proof.
  unfold every, try_catch. intros Hm Hh.
  destruct (snd m) as [| |[|]|]; simpl; try assumption.
  apply Forall_app. split; assumption.
Qed.

End TraceInvariant.

(** ** Counting and finding events *)

Lemma count_app f t1 t2 : count f (t1 ++ t2) = (count f t1 + count f t2)%nat.
Proof. unfold count. rewrite filter_app, length_app. reflexivity. Qed.

Lemma occurs_app f t1 t2 : occurs f (t1 ++ t2) = occurs f t1 || occurs f t2.
Proof. apply existsb_app. Qed.

Lemma filter_none (f : event -> bool) t :
  Forall (fun ev => f ev = false) t -> filter f t = [].
Proof.
  induction 1 as [|ev t H _ IH]; simpl; [reflexivity|]. now rewrite H.
Qed.

Lemma count_none f t : Forall (fun ev => f ev = false) t -> count f t = 0%nat.
Proof. intros H. unfold count. now rewrite filter_none. Qed.

Lemma occurs_none f t :
  Forall (fun ev => f ev = false) t -> occurs f t = false.
Proof.
  induction 1 as [|ev t H _ IH]; simpl; [reflexivity|]. now rewrite H.
Qed.

Lemma quiet_weaken (f : event -> bool) t :
  (forall ev, quiet_event ev = true -> f ev = false) ->
  quiet_trace t -> Forall (fun ev => f ev = false) t.
Proof. intros Hf. apply Forall_impl. exact Hf. Qed.

Ltac quiet_case :=
  let ev := fresh "ev" in
  intros ev; destruct ev; try reflexivity; try discriminate;
  unfold quiet_event; simpl;
  repeat match goal with
         | |- context [String.eqb ?t ?s] => destruct (String.eqb t s)
         | ok : bool |- _ => destruct ok
         end;
  simpl; congruence.

Lemma quiet_session ev : quiet_event ev = true -> session_event ev = false.
Proof. revert ev. quiet_case. Qed.

Lemma quiet_window ev : quiet_event ev = true -> window_event ev = false.
Proof. revert ev. quiet_case. Qed.

Lemma quiet_exec ev : quiet_event ev = true -> is_exec ev = false.
Proof. revert ev. quiet_case. Qed.

Lemma quiet_srd_exit ev : quiet_event ev = true -> is_srd_exit ev = false.
Proof. revert ev. quiet_case. Qed.

Lemma quiet_srd_init ok ev : quiet_event ev = true -> is_srd_init ok ev = false.
Proof. destruct ok; revert ev; quiet_case. Qed.

Lemma quiet_caught ev :
  quiet_event ev = true -> is_exception_caught ev = false.
Proof. revert ev. quiet_case. Qed.

(** ** The argument loop *)

Ltac every_step :=
  repeat first
    [ apply every_pure | apply every_return | apply every_throw
    | apply every_undefined
    | apply every_emit; reflexivity
    | apply every_calling; reflexivity
    | apply every_when
    | apply every_try_catch
    | apply every_bind; [ | intros ? ] ].

Ltac split_tests ch :=
  repeat match goal with
         | |- context [Ascii.eqb ch ?x] => destruct (Ascii.eqb ch x)
         end.

Lemma switch_events b o v :
  every (fun ev => parse_event ev = true) (switch_c b o v).
Proof.
  unfold switch_c, usage, context_set_log_level.
  destruct o as [ch arg dg]; simpl.
  split_tests ch; simpl; every_step.
  destruct (atoi arg) as [n|]; every_step.
  destruct ((n <? 0) || (n >? 5)); every_step.
  destruct (context v); every_step.
  all: destruct (empty_pointer_call_returns b); every_step.
Qed.

Lemma parse_loop_events b rs : forall v,
  every (fun ev => parse_event ev = true) (parse_loop b rs v).
Proof.
  induction rs as [|o rs IH]; intros v; simpl; every_step.
  - apply switch_events.
  - apply IH.
Qed.

Lemma configure_events b argv :
  Forall (fun ev => parse_event ev = true) (fst (configure b argv)).
Proof.
  change (every (fun ev => parse_event ev = true) (configure b argv)).
  unfold configure. every_step.
  - apply parse_loop_events.
  - match goal with |- context [if ?t then _ else _] => destruct t end;
      every_step.
Qed.

Ltac parse_event_case :=
  let ev := fresh "ev" in
  let text := fresh "text" in
  intros ev; destruct ev; try reflexivity; try discriminate;
  match goal with
  | |- parse_event (QDebug ?text) = true -> _ =>
      cbn [parse_event]; intros H; apply orb_true_iff in H as [H|H];
      apply String.eqb_eq in H; subst; reflexivity
  end.

Lemma parse_event_quiet ev : parse_event ev = true -> quiet_event ev = true.
Proof. revert ev. parse_event_case. Qed.

Lemma parse_event_no_subsystem ev :
  parse_event ev = true -> subsystem ev = false.
Proof. revert ev. parse_event_case. Qed.

Lemma configure_quiet b argv : quiet_trace (fst (configure b argv)).
Proof.
  eapply Forall_impl; [|apply configure_events]. apply parse_event_quiet.
Qed.

(** The loop leaves [ret] and [context] alone. *)
Lemma switch_keeps b o v v' :
  snd (switch_c b o v) = Normal v' ->
  ret v' = ret v /\ context v' = context v.
Proof.
  unfold switch_c, usage, context_set_log_level.
  destruct o as [ch arg dg]; simpl.
  split_tests ch; simpl; try discriminate;
    try (intros [= <-]; split; reflexivity).
  destruct (atoi arg) as [n|]; simpl; try discriminate.
  destruct ((n <? 0) || (n >? 5)); simpl;
    try (intros [= <-]; split; reflexivity).
  destruct (context v) eqn:Ec;
    destruct (empty_pointer_call_returns b), (ENABLE_DECODE b), (n >=? 5);
    simpl; try discriminate; intros [= <-]; split; congruence.
Qed.

Lemma parse_loop_keeps b rs : forall v v',
  snd (parse_loop b rs v) = Normal v' ->
  ret v' = ret v /\ context v' = context v.
Proof.
  induction rs as [|o rs IH]; intros v v'; simpl.
  - intros [= <-]. split; reflexivity.
  - unfold bind at 1.
    destruct (snd (when (Getopt.diag o) (emit GetoptMessage))) eqn:E0;
      simpl; try discriminate.
    unfold bind.
    destruct (snd (switch_c b o v)) as [v1| | |] eqn:E1; simpl;
      try discriminate.
    intros H. apply IH in H as [H1 H2].
    apply switch_keeps in E1 as [H3 H4]. split; congruence.
Qed.

Lemma switch_goes_on b o v :
  goes_on o = true ->
  switch_c b o v
  = ((if is_loglevel o then [QDebug invalid_log_level] else []),
     Normal (assign v o)).
Proof.
  unfold goes_on, is_help, is_version, is_loglevel, rejected_level,
    switch_c, assign.
  destruct o as [ch arg dg]; simpl.
  destruct (Ascii.eqb ch "h"); [discriminate|].
  destruct (Ascii.eqb ch "?"); [discriminate|].
  destruct (Ascii.eqb ch "V"); [discriminate|]. simpl.
  destruct (Ascii.eqb ch "l") eqn:El; simpl.
  - apply Ascii.eqb_eq in El. subst ch.
    destruct (atoi arg) as [n|]; [|discriminate].
    unfold out_of_range. intros ->. reflexivity.
  - intros _. split_tests ch; reflexivity.
Qed.

Lemma parse_loop_goes_on b rs : forall v,
  forallb goes_on rs = true ->
  parse_loop b rs v = (loop_messages rs, Normal (fold_left assign rs v)).
Proof.
  induction rs as [|o rs IH]; intros v H; [reflexivity|].
  simpl in H. apply andb_true_iff in H as [Ho Hrs].
  cbn [parse_loop loop_messages flat_map fold_left].
  unfold option_messages at 1.
  destruct (Getopt.diag o); cbn [when].
  - rewrite bind_emit. rewrite (bind_normal _ _ _ _ (switch_goes_on b o v Ho)).
    rewrite (IH _ Hrs). cbn [fst snd]. rewrite <- app_assoc. reflexivity.
  - rewrite bind_pure. rewrite (bind_normal _ _ _ _ (switch_goes_on b o v Ho)).
    rewrite (IH _ Hrs). reflexivity.
Qed.

Lemma switch_stops b o v :
  is_help o || is_version o = true ->
  switch_c b o v = ([Stdout (final_text b o)], Return 0).
Proof.
  unfold is_help, is_version, final_text, switch_c, is_help.
  destruct o as [ch arg dg]; simpl.
  destruct (Ascii.eqb ch "h"); [reflexivity|].
  destruct (Ascii.eqb ch "?"); [reflexivity|].
  destruct (Ascii.eqb ch "V"); [reflexivity|discriminate].
Qed.

Lemma parse_loop_app b pre : forall rs v,
  forallb goes_on pre = true ->
  parse_loop b (pre ++ rs) v
  = (loop_messages pre ++ fst (parse_loop b rs (fold_left assign pre v)),
     snd (parse_loop b rs (fold_left assign pre v))).
Proof.
  induction pre as [|o pre IH]; intros rs v H.
  - simpl. now destruct (parse_loop b rs v).
  - simpl in H. apply andb_true_iff in H as [Ho Hpre].
    cbn [app parse_loop loop_messages flat_map fold_left].
    unfold option_messages at 1.
    destruct (Getopt.diag o); cbn [when].
    + rewrite bind_emit.
      rewrite (bind_normal (switch_c b o v) _ _ _ (switch_goes_on b o v Ho)).
      rewrite (IH _ _ Hpre). cbn [fst snd app].
      rewrite <- !app_assoc. reflexivity.
    + rewrite bind_pure.
      rewrite (bind_normal (switch_c b o v) _ _ _ (switch_goes_on b o v Ho)).
      rewrite (IH _ _ Hpre). cbn [fst snd app].
      rewrite <- !app_assoc. reflexivity.
Qed.

Lemma parse_loop_stops b pre o post v :
  forallb goes_on pre = true ->
  is_help o || is_version o = true ->
  parse_loop b (pre ++ o :: post) v
  = (loop_messages pre
     ++ (if Getopt.diag o then [GetoptMessage] else [])
     ++ [Stdout (final_text b o)],
     Return 0).
Proof.
  intros Hpre Ho. rewrite (parse_loop_app _ _ _ _ Hpre).
  cbn [parse_loop]. 
  destruct (Getopt.diag o); cbn [when].
  - rewrite bind_emit. unfold bind. rewrite (switch_stops _ _ _ Ho).
    reflexivity.
  - rewrite bind_pure. unfold bind. rewrite (switch_stops _ _ _ Ho).
    reflexivity.
Qed.

(** ** What [getopt_long] leaves behind *)

Lemma scan_length os ls : forall n ws,
  (List.length ws <= n)%nat ->
  (List.length (Getopt.option_words (Getopt.scan os ls ws))
   + List.length (Getopt.operands (Getopt.scan os ls ws)))%nat
  = List.length ws.
Proof.
  induction n as [|n IH]; intros [|w rest] Hn; simpl in *;
    try reflexivity; try lia.
  pose proof (IH rest ltac:(lia)) as Hrest.
  assert (Htl : forall a rest', rest = a :: rest' ->
            (List.length (Getopt.option_words (Getopt.scan os ls rest'))
             + List.length (Getopt.operands (Getopt.scan os ls rest')))%nat
            = List.length rest').
  { intros a rest' ->. apply IH. simpl in Hn. lia. }
  destruct (Getopt.classify w).
  - simpl. reflexivity.
  - destruct (Getopt.long_word ls body (hd_error rest)) as [r [|]].
    + destruct rest as [|a rest']; simpl in *; [lia|].
      specialize (Htl a rest' eq_refl). lia.
    + simpl. lia.
  - destruct (Getopt.short_cluster os cluster (hd_error rest)) as [rs [|]].
    + destruct rest as [|a rest']; simpl in *; [lia|].
      specialize (Htl a rest' eq_refl). lia.
    + simpl. lia.
  - simpl. lia.
Qed.

Lemma argc_minus_optind os ls a0 ws :
  Z.of_nat (List.length (a0 :: ws))
  - Getopt.optind (Getopt.getopt_long os ls (a0 :: ws))
  = Z.of_nat (List.length (Getopt.positionals os ls (a0 :: ws))).
Proof.
  unfold Getopt.positionals. simpl tl.
  pose proof (scan_length os ls _ ws (le_n _)) as H.
  cbn [Getopt.getopt_long Getopt.optind List.length]. lia.
Qed.

Lemma last_word os ls a0 ws p :
  Getopt.positionals os ls (a0 :: ws) = [p] ->
  nth (Z.to_nat (Z.of_nat (List.length (a0 :: ws)) - 1))
      (Getopt.argv' (Getopt.getopt_long os ls (a0 :: ws))) "" = p.
Proof.
  unfold Getopt.positionals. simpl tl. intros Hp.
  pose proof (scan_length os ls _ ws (le_n _)) as H.
  rewrite Hp in H. simpl in H.
  cbn [Getopt.getopt_long Getopt.argv' List.length]. rewrite Hp.
  replace (Z.to_nat (Z.of_nat (S (List.length ws)) - 1))
    with (S (List.length (Getopt.option_words (Getopt.scan os ls ws))))
    by lia.
  cbn [nth]. rewrite app_nth2 by lia. rewrite Nat.sub_diag. reflexivity.
Qed.

(** ** Bringing up the subsystems *)

Lemma bring_up_quiet b e v : quiet_trace (fst (bring_up b e v)).
Proof.
  change (every (fun ev => quiet_event ev = true) (bring_up b e v)).
  unfold bring_up. every_step.
  all: destruct (if_nonzero (ENABLE_STACKTRACE b)); every_step.
  all: destruct (temp_locations e); every_step.
Qed.

Lemma bring_up_value b e v v' :
  snd (bring_up b e v) = Normal v' -> v' = set_context v sr_context.
Proof.
  unfold bring_up, calling, when.
  destruct (do_logging v), (fault e) as [[[] x]|],
    (if_nonzero (ENABLE_STACKTRACE b)), (temp_locations e), (ANDROID b);
    cbn; congruence.
Qed.

(** ** The window block *)

Lemma window_no_decoder b e v :
  Forall (fun ev => decoder_event ev = false) (fst (window b e v)).
Proof.
  change (every (fun ev => decoder_event ev = false) (window b e v)).
  unfold window. every_step.
  all: try (destruct (negb (empty (open_file v))); every_step).
  all: destruct (prepare_signals_ok e); every_step.
Qed.

Ltac window_cases b e v :=
  unfold window, calling, when, sessions;
  destruct (restore_sessions v), (empty (open_file v)),
    (ENABLE_SIGNALS b), (prepare_signals_ok e), (fault e) as [[[] x]|];
  cbn.

(** The block either runs the event loop to its end or is left by an
    exception before the event loop has returned. *)
Lemma window_result b e v :
  (snd (window b e v) = Normal (exec_result e)
   /\ occurs is_exec (fst (window b e v)) = true
   /\ filter session_event (fst (window b e v)) = sessions v)
  \/ (exists x, snd (window b e v) = Thrown x
      /\ occurs is_exec (fst (window b e v)) = false).
Proof.
  window_cases b e v; try (left; repeat split; reflexivity);
    right; exists x; repeat split; reflexivity.
Qed.

(** ** The do-block *)

Ltac same_trace H :=
  cbn [app] in H |- *; rewrite <- ?app_assoc in *;
  rewrite ?app_nil_r in *; cbn [app] in H |- *; exact H.

Lemma decode_and_run_through b e v :
  through b e v (fst (decode_and_run b e v)) (snd (decode_and_run b e v)).
Proof.
  unfold decode_and_run.
  destruct (ENABLE_DECODE b && negb (srd_init_ok e)) eqn:Hd.
  - apply andb_true_iff in Hd as [Hd Ho]. apply negb_true_iff in Ho.
    now apply init_failed.
  - destruct (window_result b e v) as [(Hw & _)|(x & Hw & _)].
    + replace (if ifdef (ENABLE_STACKTRACE b) then window b e v
               else try_catch (window b e v)
                      (emit (QDebug "Exception:");; pure (ret v)))
        with (window b e v)
        by (unfold try_catch; rewrite Hw; now destruct (ifdef _)).
      pose proof (loop_returned b e v Hd Hw) as H.
      unfold decoder_up, decoder_down in H. unfold bind, when.
      destruct (ENABLE_DECODE b); cbn; repeat (rewrite Hw; cbn); same_trace H.
    + destruct (ENABLE_STACKTRACE b) as [n|] eqn:Hs; cbn [ifdef].
      * assert (Hn : ENABLE_STACKTRACE b <> None) by congruence.
        assert (H := exception_escapes b e v x Hd (or_introl Hn) Hw).
        unfold decoder_up in H. unfold bind, when.
        destruct (ENABLE_DECODE b); cbn; repeat (rewrite Hw; cbn); same_trace H.
      * destruct x.
        -- pose proof (exception_caught b e v Hd Hs Hw) as H.
           unfold decoder_up, decoder_down in H.
           unfold bind, when, try_catch.
           destruct (ENABLE_DECODE b); cbn; repeat (rewrite Hw; cbn);
             same_trace H.
        -- assert (H := exception_escapes b e v other_exception Hd
                          (or_intror eq_refl) Hw).
           unfold decoder_up in H. unfold bind, when, try_catch.
           destruct (ENABLE_DECODE b); cbn; repeat (rewrite Hw; cbn); same_trace H.
Qed.

(** ** Runs of [main] *)

Lemma configure_ret b argv cfg :
  snd (configure b argv) = Normal cfg -> ret cfg = 0.
Proof.
  unfold configure. rewrite bind_emit. cbn [snd].
  assert (Hw : forall k : unit -> M vars,
             snd (bind (when (ANDROID b)
                          (emit SrauInitEnvironment;;
                           emit AndroidInstallCallbacks;;
                           emit AndroidAssetReaderNew)) k) = snd (k tt))
    by (intros k; destruct (ANDROID b); reflexivity).
  rewrite Hw. unfold bind at 1.
  destruct (snd (parse_loop b _ initial_vars)) as [v| | |] eqn:Hp;
    cbn [snd]; try discriminate.
  apply parse_loop_keeps in Hp as [Hr _].
  match goal with |- context [if ?t then _ else _] => destruct t end;
    cbn [snd]; try discriminate.
  match goal with |- context [if ?t then _ else _] => destruct t end;
    intros [= <-]; exact Hr.
Qed.

(** A run either ends before the do-block, having done nothing that
    concerns sessions, window or decoders, or goes one of the four ways
    through the block. *)
Lemma main_cases b e argv :
  (quiet_trace (trace b e argv)
   /\ forall v, snd (v <- configure b argv ;; bring_up b e v) <> Normal v)
  \/ (exists cfg q dt dr,
        snd (configure b argv) = Normal cfg
        /\ quiet_trace q
        /\ through b e (set_context cfg sr_context) dt dr
        /\ main b e argv = (q ++ dt, outcome_of dr)).
Proof.
  pose proof (configure_quiet b argv) as Hq.
  unfold trace, main, run.
  destruct (configure b argv) as [t [cfg| | |]] eqn:Hc; cbn [fst snd] in *;
    try (left; unfold bind; cbn [fst snd]; split; [assumption | discriminate]).
  pose proof (bring_up_quiet b e cfg) as Hq'.
  pose proof (bring_up_value b e cfg) as Hv.
  destruct (bring_up b e cfg) as [t' [v'| | |]] eqn:Hb; cbn [fst snd] in *;
    try (left; unfold bind; cbn [fst snd]; rewrite Hb; cbn [fst snd]; split;
         [apply Forall_app; split; assumption | discriminate]).
  right.
  exists cfg, (t ++ t'), (fst (decode_and_run b e (set_context cfg sr_context))),
    (snd (decode_and_run b e (set_context cfg sr_context))).
  repeat split.
  - apply Forall_app; split; assumption.
  - apply decode_and_run_through.
  - unfold bind. cbn [fst snd]. rewrite Hb. cbn [fst snd].
    rewrite (Hv v' eq_refl). rewrite app_assoc. reflexivity.
Qed.

Lemma decoder_false ev :
  decoder_event ev = false ->
  is_srd_exit ev = false /\ is_srd_init true ev = false
  /\ is_srd_init false ev = false /\ is_exception_caught ev = false.
Proof.
  unfold decoder_event. intros H.
  repeat (apply orb_false_iff in H as [H ?]). auto.
Qed.

Lemma window_srd_exit b e v : count is_srd_exit (fst (window b e v)) = 0%nat.
Proof.
  apply count_none. eapply Forall_impl; [|apply window_no_decoder].
  intros ev H. apply decoder_false in H. tauto.
Qed.

Lemma window_srd_init ok b e v :
  occurs (is_srd_init ok) (fst (window b e v)) = false.
Proof.
  apply occurs_none. eapply Forall_impl; [|apply window_no_decoder].
  intros ev H. apply decoder_false in H. destruct ok; tauto.
Qed.

Lemma window_caught b e v :
  occurs is_exception_caught (fst (window b e v)) = false.
Proof.
  apply occurs_none. eapply Forall_impl; [|apply window_no_decoder].
  intros ev H. apply decoder_false in H. tauto.
Qed.

Lemma window_thrown b e v x :
  snd (window b e v) = Thrown x ->
  occurs is_exec (fst (window b e v)) = false.
Proof.
  destruct (window_result b e v) as [(H & _)|(y & _ & H)]; [congruence|auto].
Qed.

Lemma window_normal b e v r :
  snd (window b e v) = Normal r ->
  occurs is_exec (fst (window b e v)) = true
  /\ filter session_event (fst (window b e v)) = sessions v.
Proof.
  destruct (window_result b e v) as [(_ & H)|(y & H & _)]; [auto|congruence].
Qed.

Ltac quiet_facts q Hq :=
  pose proof (count_none is_srd_exit q
                (quiet_weaken _ _ quiet_srd_exit Hq)) as Qexit;
  pose proof (occurs_none is_srd_exit q
                (quiet_weaken _ _ quiet_srd_exit Hq)) as Qoexit;
  pose proof (occurs_none (is_srd_init true) q
                (quiet_weaken _ _ (quiet_srd_init true) Hq)) as Qinit;
  pose proof (occurs_none (is_srd_init false) q
                (quiet_weaken _ _ (quiet_srd_init false) Hq)) as Qfail;
  pose proof (occurs_none is_exec q
                (quiet_weaken _ _ quiet_exec Hq)) as Qexec;
  pose proof (occurs_none window_event q
                (quiet_weaken _ _ quiet_window Hq)) as Qwin;
  pose proof (occurs_none is_exception_caught q
                (quiet_weaken _ _ quiet_caught Hq)) as Qcaught;
  pose proof (filter_none session_event q
                (quiet_weaken _ _ quiet_session Hq)) as Qsess.

Ltac split_trace :=
  unfold decoder_up, decoder_down;
  rewrite ?occurs_app, ?count_app, ?filter_app;
  rewrite ?window_srd_exit, ?window_srd_init, ?window_caught;
  repeat match goal with
         | H : occurs _ ?q = false |- context [occurs _ ?q] => rewrite H
         | H : count _ ?q = 0%nat |- context [count _ ?q] => rewrite H
         | H : filter _ ?q = [] |- context [filter _ ?q] => rewrite H
         end.

(** C5: when libsigrokdecode was initialised and the run either came
    back from the event loop or caught an exception at top level,
    [srd_exit] is called exactly once; when it was not initialised,
    [srd_exit] is never called. *)
Theorem srd_exit_matches_srd_init b e argv :
  (occurs (is_srd_init true) (trace b e argv) = true ->
   occurs is_exec (trace b e argv) = true
   \/ occurs is_exception_caught (trace b e argv) = true ->
   count is_srd_exit (trace b e argv) = 1%nat)
  /\ (occurs (is_srd_init true) (trace b e argv) = false ->
      count is_srd_exit (trace b e argv) = 0%nat).
Proof.
  destruct (main_cases b e argv)
    as [[Hq _]|(cfg & q & dt & dr & Hc & Hq & Ht & Hm)].
  - quiet_facts (trace b e argv) Hq. split; intros; congruence.
  - unfold trace. rewrite Hm. cbn [fst]. quiet_facts q Hq.
    destruct Ht as [Hd Hok|Hd Hw|Hd Hs Hw|x Hd Hs Hw].
    + split_trace. cbn. split; intros; congruence.
    + split_trace. destruct (ENABLE_DECODE b); cbn; split; intros;
        congruence.
    + split_trace. destruct (ENABLE_DECODE b); cbn; split; intros;
        congruence.
    + pose proof (window_thrown _ _ _ _ Hw) as Hx.
      split_trace. destruct (ENABLE_DECODE b); cbn; split; intros;
        try congruence.
      intuition congruence.
Qed.

Lemma srd_exit_matches_srd_init_witness :
  count is_srd_exit (trace desktop (failing CallExec std_exception)
                       ["pulseview"; "-c"; "capture.sr"]) = 1%nat.
Proof.
  apply (srd_exit_matches_srd_init desktop (failing CallExec std_exception)
           ["pulseview"; "-c"; "capture.sr"]).
  - reflexivity.
  - right. reflexivity.
Defined.

(** In a build with the fault handlers there is no [try] block: an
    exception leaves [main] and [srd_exit] is not reached. *)
Lemma srd_exit_skipped_without_catch :
  main desktop_stacktrace (failing CallMainWindow std_exception) ["pulseview"]
  = ([ApplicationNew; GlobalSettingsNew; SetDefaultsWhereNeeded; LoggingInit;
      ContextCreate; SessionSetContext sr_context;
      AssignStacktraceFilename "/tmp/pv_stacktrace.dmp";
      QDebug "Stack trace file is /tmp/pv_stacktrace.dmp";
      Signal SIGSEGV SIG_signal_handler; Signal SIGABRT SIG_signal_handler;
      SrdInit true; SrdDecoderLoadAll;
      DeviceManagerNew sr_context "" true],
     Terminate).
Proof. reflexivity. Qed.

(** C2 as the specification has it does not hold: when [srd_init] fails,
    the run of "pulseview" logs the failure and returns, with no device
    manager, no window and no event loop. *)
Lemma init_failure_does_not_run :
  main desktop no_decoders ["pulseview"]
  = ([ApplicationNew; GlobalSettingsNew; SetDefaultsWhereNeeded; LoggingInit;
      ContextCreate; SessionSetContext sr_context;
      SrdInit false; QDebug decode_init_failed],
     Exit 0)
  /\ ~ init_failure_still_runs.
Proof.
  split; [reflexivity|]. intros H.
  destruct (H desktop no_decoders ["pulseview"] eq_refl) as [H1 _].
  discriminate H1.
Qed.

(** C2, amended: when [srd_init] fails the failure is logged and the
    do-block is left at once: no device manager, no main window, no event
    loop, no [srd_exit]; [main] returns the initial value 0 of [ret]. *)
Theorem decode_init_failure_ends_run b e argv :
  occurs (is_srd_init false) (trace b e argv) = true ->
  In (QDebug decode_init_failed) (trace b e argv)
  /\ occurs window_event (trace b e argv) = false
  /\ occurs session_event (trace b e argv) = false
  /\ occurs is_srd_exit (trace b e argv) = false
  /\ decoder_state (trace b e argv) = InitFailed
  /\ ending b e argv = Exit 0.
Proof.
  unfold decoder_state.
  destruct (main_cases b e argv)
    as [[Hq _]|(cfg & q & dt & dr & Hc & Hq & Ht & Hm)].
  - quiet_facts (trace b e argv) Hq. congruence.
  - unfold trace, ending. rewrite Hm. cbn [fst snd]. quiet_facts q Hq.
    pose proof (occurs_none session_event q
                  (quiet_weaken _ _ quiet_session Hq)) as Qos.
    destruct Ht as [Hd Hok|Hd Hw|Hd Hs Hw|x Hd Hs Hw].
    + intros _. split_trace. cbn.
      rewrite (configure_ret _ _ _ Hc). repeat split.
      apply in_or_app. right. right. left. reflexivity.
    + split_trace. destruct (ENABLE_DECODE b); cbn; congruence.
    + split_trace. destruct (ENABLE_DECODE b); cbn; congruence.
    + split_trace. destruct (ENABLE_DECODE b); cbn; congruence.
Qed.

Lemma decode_init_failure_ends_run_witness :
  In (QDebug decode_init_failed) (trace desktop no_decoders ["pulseview"])
  /\ occurs window_event (trace desktop no_decoders ["pulseview"]) = false
  /\ occurs session_event (trace desktop no_decoders ["pulseview"]) = false
  /\ occurs is_srd_exit (trace desktop no_decoders ["pulseview"]) = false
  /\ decoder_state (trace desktop no_decoders ["pulseview"]) = InitFailed
  /\ ending desktop no_decoders ["pulseview"] = Exit 0.
Proof.
  apply (decode_init_failure_ends_run desktop no_decoders ["pulseview"]).
  reflexivity.
Defined.




(** ** Ends before any subsystem *)

Lemma configure_unfold b argv :
  configure b argv
  = (prelude b
     ++ fst (parse_loop b (parsed_options argv) initial_vars)
     ++ match snd (parse_loop b (parsed_options argv) initial_vars) with
        | Normal _ =>
            if Z.of_nat (List.length argv)
               - Getopt.optind (Getopt.getopt_long optstring long_options argv)
               >? 1
            then [Stderr only_one_file] else []
        | _ => []
        end,
     match snd (parse_loop b (parsed_options argv) initial_vars) with
     | Normal v =>
         let g := Getopt.getopt_long optstring long_options argv in
         let argc := Z.of_nat (List.length argv) in
         if argc - Getopt.optind g >? 1 then Return 1
         else Normal (if argc - Getopt.optind g =? 1
                      then set_open_file v
                             (nth (Z.to_nat (argc - 1)) (Getopt.argv' g) "")
                      else v)
     | Return code => Return code
     | Thrown x => Thrown x
     | Undefined => Undefined
     end).
Proof.
  unfold configure, prelude, parsed_options.
  set (g := Getopt.getopt_long optstring long_options argv).
  rewrite bind_emit.
  destruct (parse_loop b (Getopt.seen g) initial_vars) as [t r] eqn:Hp.
  destruct (ANDROID b); cbn [when]; unfold bind; cbn [fst snd app];
    rewrite ?Hp; cbn [fst snd];
    destruct r as [v| | |]; cbn [fst snd app]; rewrite ?app_nil_r;
    try reflexivity;
    destruct (Z.of_nat (List.length argv) - Getopt.optind g >? 1);
    cbn [fst snd app]; rewrite ?app_nil_r; reflexivity.
Qed.

Lemma option_messages_no_subsystem rs :
  occurs subsystem (loop_messages rs) = false.
Proof.
  induction rs as [|o rs IH]; [reflexivity|].
  unfold loop_messages in *. cbn [flat_map]. rewrite occurs_app, IH.
  unfold option_messages.
  destruct (Getopt.diag o), (is_loglevel o); reflexivity.
Qed.

Lemma prelude_no_subsystem b : occurs subsystem (prelude b) = false.
Proof. unfold prelude. destruct (ANDROID b); reflexivity. Qed.

Lemma main_stops b e argv :
  (forall cfg, snd (configure b argv) <> Normal cfg) ->
  main b e argv
  = (fst (configure b argv),
     match snd (configure b argv) with
     | Normal _ => Terminate
     | Return code => Exit code
     | Thrown _ => Terminate
     | Undefined => UndefinedBehaviour
     end).
Proof.
  intros H. unfold main, run, bind.
  destruct (snd (configure b argv)) as [cfg| | |]; try reflexivity.
  now destruct (H cfg).
Qed.

(** C7 as the specification has it does not hold: in
    "pulseview -i --help" the word "--help" is the argument of the option
    before it, and the run opens the file of that name. *)
Lemma help_word_may_be_an_argument :
  main desktop quiet ["pulseview"; "-i"; "--help"]
  = ([ApplicationNew; GlobalSettingsNew; SetDefaultsWhereNeeded; LoggingInit;
      ContextCreate; SessionSetContext sr_context;
      SrdInit true; SrdDecoderLoadAll;
      DeviceManagerNew sr_context "" true; MainWindowNew; MainWindowShow;
      RestoreSessions; AddSessionWithFile "--help" "";
      PrepareSignals true; SignalHandlerNew;
      ConnectIntReceived; ConnectTermReceived;
      Exec 0; SrdExit],
     Exit 0)
  /\ ~ help_word_ends_run.
Proof.
  split; [reflexivity|]. intros H.
  destruct (H desktop quiet ["pulseview"; "-i"; "--help"]) as [_ H1].
  - left. right. right. left. reflexivity.
  - discriminate H1.
Qed.

(** C7, amended: when [getopt_long] hands back a help option (h or ?) or
    the version option, and every option before it was one the loop goes
    on from, the run prints the usage text respectively title and version
    on the standard output and returns 0; no subsystem has been touched. *)
Theorem help_or_version_ends_run b e argv pre o post :
  parsed_options argv = pre ++ o :: post ->
  forallb goes_on pre = true ->
  is_help o || is_version o = true ->
  main b e argv
  = (prelude b ++ loop_messages pre
     ++ (if Getopt.diag o then [GetoptMessage] else [])
     ++ [Stdout (final_text b o)],
     Exit 0)
  /\ occurs subsystem (trace b e argv) = false.
Proof.
  intros Hargv Hpre Ho.
  assert (Hm : main b e argv
               = (prelude b ++ loop_messages pre
                  ++ (if Getopt.diag o then [GetoptMessage] else [])
                  ++ [Stdout (final_text b o)],
                  Exit 0)).
  { rewrite main_stops; rewrite configure_unfold, Hargv,
      (parse_loop_stops b pre o post initial_vars Hpre Ho); cbn [fst snd].
    - rewrite app_nil_r. reflexivity.
    - discriminate. }
  split; [exact Hm|].
  unfold trace. rewrite Hm. cbn [fst].
  rewrite !occurs_app, prelude_no_subsystem, option_messages_no_subsystem.
  destruct (Getopt.diag o); reflexivity.
Qed.

Lemma help_or_version_ends_run_witness :
  main desktop quiet ["pulseview"; "-l"; "9"; "-D"; "--vers"; "-l"; "3"]
  = ([ApplicationNew; QDebug invalid_log_level; Stdout "PulseView 0.5.0
"], Exit 0)
  /\ occurs subsystem
       (trace desktop quiet
          ["pulseview"; "-l"; "9"; "-D"; "--vers"; "-l"; "3"]) = false.
Proof.
  apply (help_or_version_ends_run desktop quiet
           ["pulseview"; "-l"; "9"; "-D"; "--vers"; "-l"; "3"]
           [Getopt.with_arg "l" "9"; Getopt.plain "D"]
           (Getopt.plain "V")
           [Getopt.with_arg "l" "3"]);
    reflexivity.
Defined.

(** C8 as the specification has it does not hold: the run of
    "pulseview -h a.sr b.sr" prints the usage text and returns 0. *)
Lemma help_goes_before_two_files :
  positionals ["pulseview"; "-h"; "a.sr"; "b.sr"] = ["a.sr"; "b.sr"]
  /\ main desktop quiet ["pulseview"; "-h"; "a.sr"; "b.sr"]
     = ([ApplicationNew; Stdout (usage_text "pulseview")], Exit 0)
  /\ ~ two_files_end_run.
Proof.
  split; [reflexivity|]. split; [reflexivity|]. intros H.
  destruct (H desktop quiet ["pulseview"; "-h"; "a.sr"; "b.sr"]) as [_ H1].
  - cbn. lia.
  - discriminate H1.
Qed.

(** C8, amended: when the argument loop has run to its end (every option
    was one it goes on from) and two or more positional arguments are
    left, the run writes "Only one file can be opened." to the error
    stream and returns 1; no subsystem has been touched. *)
Theorem two_positionals_end_run b e argv :
  forallb goes_on (parsed_options argv) = true ->
  (2 <= List.length (positionals argv))%nat ->
  main b e argv
  = (prelude b ++ loop_messages (parsed_options argv)
     ++ [Stderr only_one_file],
     Exit 1)
  /\ occurs subsystem (trace b e argv) = false.
Proof.
  intros Hopts Hpos.
  assert (Hm : main b e argv
               = (prelude b ++ loop_messages (parsed_options argv)
                  ++ [Stderr only_one_file],
                  Exit 1)).
  { destruct argv as [|a0 ws]; [cbn in Hpos; lia|].
    assert (Hgt : (Z.of_nat (List.length (a0 :: ws))
                   - Getopt.optind
                       (Getopt.getopt_long optstring long_options (a0 :: ws))
                   >? 1) = true).
    { rewrite argc_minus_optind. unfold positionals in Hpos. lia. }
    rewrite main_stops;
      rewrite configure_unfold,
        (parse_loop_goes_on b _ initial_vars Hopts); cbn [fst snd];
      rewrite Hgt.
    - reflexivity.
    - discriminate. }
  split; [exact Hm|].
  unfold trace. rewrite Hm. cbn [fst].
  rewrite !occurs_app, prelude_no_subsystem, option_messages_no_subsystem.
  reflexivity.
Qed.

Lemma two_positionals_end_run_witness :
  main desktop quiet ["pulseview"; "a.sr"; "-c"; "b.sr"]
  = ([ApplicationNew; Stderr only_one_file], Exit 1)
  /\ occurs subsystem
       (trace desktop quiet ["pulseview"; "a.sr"; "-c"; "b.sr"]) = false.
Proof.
  apply (two_positionals_end_run desktop quiet
           ["pulseview"; "a.sr"; "-c"; "b.sr"]).
  - reflexivity.
  - cbn. lia.
Defined.

Lemma window_sessions_within b e v ev :
  In ev (filter session_event (fst (window b e v))) -> In ev (sessions v).
Proof. window_cases b e v; tauto. Qed.

Lemma decoder_up_no_session b : filter session_event (decoder_up b) = [].
Proof. unfold decoder_up. destruct (ENABLE_DECODE b); reflexivity. Qed.

Lemma decoder_down_no_session b : filter session_event (decoder_down b) = [].
Proof. unfold decoder_down. destruct (ENABLE_DECODE b); reflexivity. Qed.

(** Whatever way the run takes, the sessions it adds are among those the
    variables ask for. *)
Lemma main_sessions_within b e argv ev :
  session_event ev = true ->
  In ev (trace b e argv) ->
  exists cfg, snd (configure b argv) = Normal cfg /\ In ev (sessions cfg).
Proof.
  intros Hev Hin.
  assert (Hf : In ev (filter session_event (trace b e argv)))
    by (apply filter_In; split; assumption).
  clear Hin. revert Hf.
  destruct (main_cases b e argv)
    as [[Hq _]|(cfg & q & dt & dr & Hc & Hq & Ht & Hm)].
  - rewrite (filter_none session_event _
               (quiet_weaken _ _ quiet_session Hq)).
    intros [].
  - unfold trace. rewrite Hm. cbn [fst].
    rewrite filter_app,
      (filter_none session_event _ (quiet_weaken _ _ quiet_session Hq)).
    cbn [app]. intros Hf. exists cfg. split; [exact Hc|].
    change (sessions cfg) with (sessions (set_context cfg sr_context)).
    destruct Ht as [Hd Hok|Hd Hw|Hd Hs Hw|x Hd Hs Hw];
      rewrite ?filter_app, ?decoder_up_no_session, ?decoder_down_no_session,
        ?app_nil_r in Hf;
      cbn [app filter session_event] in Hf;
      rewrite ?app_nil_r in Hf;
      try (now apply window_sessions_within in Hf);
      destruct Hf.
Qed.

(** Without a positional argument the option's file is the one opened. *)
Lemma input_file_option_alone :
  filter session_event (trace desktop quiet ["pulseview"; "-i"; "a.sr"])
  = [RestoreSessions; AddSessionWithFile "a.sr" ""]
  /\ filter session_event
       (trace desktop quiet ["pulseview"; "-i"; "a.sr"; "b.sr"])
     = [RestoreSessions; AddSessionWithFile "b.sr" ""].
Proof. split; reflexivity. Qed.

(** ** The log level *)

Lemma every_bind_value (P : event -> Prop) {A B} (m : M A) (k : A -> M B) :
  every P m -> (forall a, snd m = Normal a -> every P (k a)) ->
  every P (bind m k).
Proof.
  unfold every, bind. intros Hm Hk.
  destruct (snd m) as [a| | |]; simpl; try assumption.
  apply Forall_app. split; [assumption | now apply Hk].
Qed.

Lemma switch_null_context b o v :
  context v = null_context ->
  every (fun ev => on_live_context ev = false) (switch_c b o v).
Proof.
  intros Hv. unfold switch_c, usage, context_set_log_level. rewrite Hv.
  destruct o as [ch arg dg]; simpl.
  split_tests ch; simpl; every_step.
  destruct (atoi arg) as [n|]; every_step.
  destruct ((n <? 0) || (n >? 5)); every_step.
  all: destruct (empty_pointer_call_returns b); every_step.
Qed.

Lemma parse_loop_null_context b rs : forall v,
  context v = null_context ->
  every (fun ev => on_live_context ev = false) (parse_loop b rs v).
Proof.
  induction rs as [|o rs IH]; intros v Hv; simpl; [apply every_pure|].
  apply every_bind;
    [apply every_when; apply every_emit; reflexivity | intros _].
  apply every_bind_value.
  - now apply switch_null_context.
  - intros v' Hv'. apply IH.
    apply switch_keeps in Hv' as [_ Hc]. congruence.
Qed.

Lemma main_never_on_live_context b e argv :
  occurs on_live_context (trace b e argv) = false.
Proof.
  apply occurs_none.
  change (every (fun ev => on_live_context ev = false)
            (v <- configure b argv ;;
             v <- bring_up b e v ;;
             decode_and_run b e v)).
  apply every_bind; [|intros cfg; apply every_bind; [|intros v]].
  - unfold configure. every_step.
    + now apply parse_loop_null_context.
    + match goal with |- context [if ?t then _ else _] => destruct t end;
        every_step.
  - unfold bring_up. every_step.
    all: destruct (if_nonzero (ENABLE_STACKTRACE b)); every_step.
    all: destruct (temp_locations e); every_step.
  - unfold decode_and_run, window.
    destruct (ENABLE_DECODE b && negb (srd_init_ok e)); every_step.
    destruct (ifdef (ENABLE_STACKTRACE b)); every_step.
    all: try (destruct (negb (empty (open_file v))); every_step).
    all: destruct (prepare_signals_ok e); every_step.
Qed.

Lemma getopt_loglevel s :
  Getopt.getopt_long optstring long_options ["pulseview"; "-l"; s]
  = {| Getopt.seen := [Getopt.with_arg "l" s];
       Getopt.argv' := ["pulseview"; "-l"; s];
       Getopt.optind := 3 |}.
Proof. reflexivity. Qed.

(** A level outside the range: the complaint is logged and nothing else
    happens. *)
Lemma rejected_level_is_skipped b o v n :
  is_loglevel o = true ->
  atoi (Getopt.optarg o) = Some n ->
  out_of_range n = true ->
  switch_c b o v = ([QDebug invalid_log_level], Normal v).
Proof.
  unfold is_loglevel, out_of_range, switch_c.
  destruct o as [ch arg dg]; simpl. intros Hl Ha Hr.
  apply Ascii.eqb_eq in Hl. subst ch. cbn. rewrite Ha, Hr.
  reflexivity.
Qed.

(** C3: the log level is to reach the libsigrok context only once the
    context exists.  [main] calls the setter inside the argument loop,
    before [Context::create]: no run ever sets a level through a live
    context, and the run of "-l 3" makes the call through the empty
    pointer before any subsystem is up. *)
Theorem log_level_set_before_context_exists :
  (forall b e argv, occurs on_live_context (trace b e argv) = false)
  /\ main desktop quiet ["pulseview"; "-l"; "3"]
     = ([ApplicationNew; ContextSetLogLevel null_context 3],
        UndefinedBehaviour).
Proof. split; [exact main_never_on_live_context | reflexivity]. Qed.

Lemma assign_keeps_context rs : forall v,
  context (fold_left assign rs v) = context v.
Proof.
  induction rs as [|o rs IH]; intros v; [reflexivity|].
  cbn [fold_left]. rewrite IH. unfold assign.
  destruct o as [ch arg dg]; simpl. split_tests ch; reflexivity.
Qed.

(** A level outside 0..5 costs one line of log and the run is the run
    without the option. *)
Lemma level_out_of_range_is_ignored b e s n :
  atoi s = Some n ->
  out_of_range n = true ->
  main b e ["pulseview"; "-l"; s]
  = (prelude b ++ [QDebug invalid_log_level]
     ++ fst (v <- bring_up b e initial_vars ;; decode_and_run b e v),
     outcome_of (snd (v <- bring_up b e initial_vars ;; decode_and_run b e v)))
  /\ main b e ["pulseview"]
     = (prelude b
        ++ fst (v <- bring_up b e initial_vars ;; decode_and_run b e v),
        outcome_of
          (snd (v <- bring_up b e initial_vars ;; decode_and_run b e v))).
Proof.
  intros Ha Hr. split.
  - assert (Hc : configure b ["pulseview"; "-l"; s]
                 = (prelude b ++ [QDebug invalid_log_level],
                    Normal initial_vars)).
    { rewrite configure_unfold. unfold parsed_options.
      rewrite getopt_loglevel.
      cbn [Getopt.seen parse_loop Getopt.diag Getopt.with_arg when].
      rewrite bind_pure. unfold bind.
      rewrite (rejected_level_is_skipped b (Getopt.with_arg "l" s)
                 initial_vars n eq_refl Ha Hr).
      cbn. reflexivity. }
    unfold main, run. rewrite (bind_normal _ _ _ _ Hc). cbn [fst snd].
    rewrite <- app_assoc. reflexivity.
  - assert (Hc : configure b ["pulseview"] = (prelude b, Normal initial_vars)).
    { rewrite configure_unfold. cbn. rewrite app_nil_r. reflexivity. }
    unfold main, run. rewrite (bind_normal _ _ _ _ Hc). reflexivity.
Qed.

Lemma level_nine_reaches_the_event_loop :
  occurs is_exec (trace desktop quiet ["pulseview"; "-l"; "9"]) = true
  /\ occurs is_set_log_level (trace desktop quiet ["pulseview"; "-l"; "9"])
     = false.
Proof. split; reflexivity. Qed.

(** ** [atoi] on text without a number *)



(** ** The fault handlers *)

Lemma replay_neutral t : forall p,
  Forall (fun ev => neutral ev = true) t -> fold_left replay t p = p.
Proof.
  induction t as [|ev t IH]; intros p H; [reflexivity|].
  inversion H as [|? ? Hev Ht]; subst. cbn [fold_left].
  rewrite <- (IH p Ht) at 2. f_equal.
  destruct ev; try reflexivity; discriminate Hev.
Qed.

Lemma parse_event_neutral ev : parse_event ev = true -> neutral ev = true.
Proof. destruct ev; try reflexivity; discriminate. Qed.

Lemma configure_neutral b argv :
  Forall (fun ev => neutral ev = true) (fst (configure b argv)).
Proof.
  eapply Forall_impl; [|apply configure_events]. apply parse_event_neutral.
Qed.

Lemma decode_and_run_neutral b e v :
  Forall (fun ev => neutral ev = true) (fst (decode_and_run b e v)).
Proof.
  change (every (fun ev => neutral ev = true) (decode_and_run b e v)).
  unfold decode_and_run, window.
  destruct (ENABLE_DECODE b && negb (srd_init_ok e)); every_step.
  destruct (ifdef (ENABLE_STACKTRACE b)); every_step.
  all: try (destruct (negb (empty (open_file v))); every_step).
  all: destruct (prepare_signals_ok e); every_step.
Qed.

Lemma bring_up_installs b e v tp tps :
  temp_locations e = tp :: tps ->
  In (Signal SIGABRT SIG_signal_handler) (fst (bring_up b e v)) ->
  installed (stacktrace_file tp) (process_after (fst (bring_up b e v))).
Proof.
  intros Ht. unfold bring_up, calling, when. rewrite Ht.
  destruct (do_logging v), (fault e) as [[[] x]|],
    (if_nonzero (ENABLE_STACKTRACE b)), (ANDROID b);
    cbn; intros H; repeat (destruct H as [H|H]; try discriminate H);
    try contradiction; repeat split; reflexivity.
Qed.

Lemma neutral_not_signal t signum d :
  Forall (fun ev => neutral ev = true) t -> ~ In (Signal signum d) t.
Proof.
  intros H Hin. rewrite Forall_forall in H. apply H in Hin. discriminate.
Qed.

Lemma trace_parts b e argv :
  exists t1 t2 t3,
    trace b e argv = t1 ++ t2 ++ t3
    /\ Forall (fun ev => neutral ev = true) t1
    /\ Forall (fun ev => neutral ev = true) t3
    /\ (t2 = [] \/ exists cfg, t2 = fst (bring_up b e cfg)).
Proof.
  pose proof (configure_neutral b argv) as Hc.
  exists (fst (configure b argv)).
  unfold trace, main, run. cbn [fst]. unfold bind at 1.
  destruct (snd (configure b argv)) as [cfg| | |]; cbn [fst];
    try solve [exists (@nil event); exists (@nil event); rewrite !app_nil_r;
               repeat split; auto].
  exists (fst (bring_up b e cfg)).
  unfold bind.
  destruct (snd (bring_up b e cfg)) as [v| | |]; cbn [fst];
    try solve [exists (@nil event); rewrite !app_nil_r;
               repeat split; eauto].
  exists (fst (decode_and_run b e v)).
  repeat split; eauto using decode_and_run_neutral.
Qed.

(** A run in which both handlers have been installed leaves them
    installed, with the dump file under the first temporary location. *)
Lemma main_installs b e argv tp tps :
  temp_locations e = tp :: tps ->
  In (Signal SIGABRT SIG_signal_handler) (trace b e argv) ->
  installed (stacktrace_file tp) (process_after (trace b e argv)).
Proof.
  intros Ht Hin.
  destruct (trace_parts b e argv) as (t1 & t2 & t3 & Heq & H1 & H3 & H2).
  rewrite Heq in *. unfold process_after.
  rewrite !fold_left_app, (replay_neutral _ _ H1), (replay_neutral _ _ H3).
  apply in_app_or in Hin as [Hin|Hin];
    [now apply (neutral_not_signal _ _ _ H1) in Hin|].
  apply in_app_or in Hin as [Hin|Hin];
    [|now apply (neutral_not_signal _ _ _ H3) in Hin].
  destruct H2 as [-> | [cfg ->]]; [destruct Hin|].
  now apply (bring_up_installs b e cfg tp tps).
Qed.

Lemma deliver_installed p signum n :
  signum = SIGABRT \/ signum = SIGSEGV ->
  handlers p signum = SIG_signal_handler ->
  (3 <= n)%nat ->
  exists rest,
    deliver n signum p
    = Some (Signal signum SIG_DFL
            :: SafeDumpTo (stacktrace_filename p)
            :: Raise SIGABRT
            :: rest)
    /\ last rest (Raise SIGABRT) = KilledBy SIGABRT.
Proof.
  intros Hs Hp Hn.
  destruct n as [|[|[|n]]]; try lia.
  cbn [deliver]. rewrite Hp. unfold signal_handler at 1.
  destruct Hs as [-> | ->].
  - cbn. eexists. split; reflexivity.
  - cbn [deliver signal handlers stacktrace_filename].
    replace (SIGABRT =? SIGSEGV) with false by reflexivity.
    destruct (handlers p SIGABRT).
    + eexists. split; reflexivity.
    + cbn. eexists. split; reflexivity.
Qed.

(** C4 as the specification has it does not hold: called for a
    segmentation fault, the handler raises SIGABRT.  That abort comes back
    into the handler, which dumps a second time before the process is
    killed. *)
Lemma handler_always_raises_abort :
  deliver 3 SIGSEGV
    (process_after (trace desktop_stacktrace quiet ["pulseview"]))
  = Some [Signal SIGSEGV SIG_DFL;
          SafeDumpTo "/tmp/pv_stacktrace.dmp";
          Raise SIGABRT;
          Signal SIGABRT SIG_DFL;
          SafeDumpTo "/tmp/pv_stacktrace.dmp";
          Raise SIGABRT;
          KilledBy SIGABRT]
  /\ ~ handler_raises_its_signal.
Proof.
  split; [reflexivity|]. intros H.
  destruct (H (process_after (trace desktop_stacktrace quiet ["pulseview"]))
              SIGSEGV 3%nat (or_intror eq_refl) eq_refl (le_n 3))
    as [rest Hrest].
  discriminate Hrest.
Qed.

(** C4, amended: in a run that has installed the handlers, a fault signal
    (abort or segmentation fault) makes the handler restore the default
    disposition of that signal, then dump the stack trace to
    "pv_stacktrace.dmp" under the first temporary location, then raise
    SIGABRT, whichever of the two signals it was called for; the process
    ends killed by SIGABRT. *)
Theorem fault_handler_restores_dumps_aborts b e argv tp tps signum n :
  temp_locations e = tp :: tps ->
  In (Signal SIGABRT SIG_signal_handler) (trace b e argv) ->
  signum = SIGABRT \/ signum = SIGSEGV ->
  (3 <= n)%nat ->
  exists rest,
    deliver n signum (process_after (trace b e argv))
    = Some (Signal signum SIG_DFL
            :: SafeDumpTo (stacktrace_file tp)
            :: Raise SIGABRT
            :: rest)
    /\ last rest (Raise SIGABRT) = KilledBy SIGABRT.
Proof.
  intros Ht Hin Hs Hn.
  destruct (main_installs b e argv tp tps Ht Hin) as (Ha & Hv & Hf).
  rewrite <- Hf. apply deliver_installed; try assumption.
  destruct Hs as [-> | ->]; assumption.
Qed.

Lemma fault_handler_restores_dumps_aborts_witness :
  exists rest,
    deliver 3 SIGSEGV
      (process_after (trace desktop_stacktrace quiet ["pulseview"]))
    = Some (Signal SIGSEGV SIG_DFL
            :: SafeDumpTo "/tmp/pv_stacktrace.dmp"
            :: Raise SIGABRT
            :: rest)
    /\ last rest (Raise SIGABRT) = KilledBy SIGABRT.
Proof.
  apply (fault_handler_restores_dumps_aborts desktop_stacktrace quiet
           ["pulseview"] "/tmp" [] SIGSEGV 3).
  - reflexivity.
  - cbn. tauto.
  - right. reflexivity.
  - lia.
Defined.

(** * Further properties *)

(** ** The options and the variables *)

Ltac assign_field :=
  let ch := fresh "ch" in
  intros ? [ch ? ?]; unfold assign; simpl;
  repeat match goal with
         | |- context [Ascii.eqb ch ?x] =>
             destruct (Ascii.eqb_spec ch x); [subst ch; simpl|]
         end;
  try reflexivity; try congruence;
  rewrite ?andb_true_r, ?andb_false_r; reflexivity.

Lemma assign_ret : forall v o, ret (assign v o) = ret v.
Proof. assign_field. Qed.

Lemma assign_context : forall v o, context (assign v o) = context v.
Proof. assign_field. Qed.

Lemma assign_open_file : forall v o,
  open_file (assign v o)
  = if Ascii.eqb (Getopt.c o) "i" then Getopt.optarg o else open_file v.
Proof. assign_field. Qed.

Lemma assign_open_file_format : forall v o,
  open_file_format (assign v o)
  = if Ascii.eqb (Getopt.c o) "I" then Getopt.optarg o
    else open_file_format v.
Proof. assign_field. Qed.

Lemma assign_driver : forall v o,
  driver (assign v o)
  = if Ascii.eqb (Getopt.c o) "d" then Getopt.optarg o else driver v.
Proof. assign_field. Qed.

Lemma assign_restore_sessions : forall v o,
  restore_sessions (assign v o)
  = restore_sessions v && negb (Ascii.eqb (Getopt.c o) "c").
Proof. assign_field. Qed.

Lemma assign_do_scan : forall v o,
  do_scan (assign v o) = do_scan v && negb (Ascii.eqb (Getopt.c o) "D").
Proof. assign_field. Qed.

Lemma assign_do_logging : forall v o,
  do_logging (assign v o) = do_logging v && negb (Ascii.eqb (Getopt.c o) "s").
Proof. assign_field. Qed.

Lemma fold_assign rs : forall v,
  fold_left assign rs v
  = {| ret := ret v;
       context := context v;
       open_file := last_arg "i" rs (open_file v);
       open_file_format := last_arg "I" rs (open_file_format v);
       driver := last_arg "d" rs (driver v);
       restore_sessions := restore_sessions v && negb (given "c" rs);
       do_scan := do_scan v && negb (given "D" rs);
       do_logging := do_logging v && negb (given "s" rs) |}.
Proof.
  induction rs as [|o rs IH]; intros v.
  - destruct v. cbn. rewrite !andb_true_r. reflexivity.
  - cbn [fold_left]. rewrite IH.
    rewrite assign_ret, assign_context, assign_open_file,
      assign_open_file_format, assign_driver, assign_restore_sessions,
      assign_do_scan, assign_do_logging.
    unfold last_arg, given. cbn [fold_left existsb].
    rewrite !negb_orb, !andb_assoc. reflexivity.
Qed.

Lemma fold_assign_initial rs :
  fold_left assign rs initial_vars = configuration rs.
Proof. rewrite fold_assign. reflexivity. Qed.

Lemma switch_continues b o v :
  context v = null_context ->
  continues b o = true ->
  switch_c b o v
  = ((if is_loglevel o
      then match atoi (Getopt.optarg o) with
           | Some loglevel =>
               if out_of_range loglevel
               then [QDebug invalid_log_level]
               else level_events b loglevel
           | None => []
           end
      else []),
     Normal (assign v o)).
Proof.
  intros Hv.
  unfold continues, is_help, is_version, is_loglevel, out_of_range,
    switch_c, usage, context_set_log_level, assign, level_events.
  rewrite Hv. destruct o as [ch arg dg]; simpl.
  destruct (Ascii.eqb ch "h"); [discriminate|].
  destruct (Ascii.eqb ch "?"); [discriminate|].
  destruct (Ascii.eqb ch "V"); [discriminate|]. simpl.
  destruct (Ascii.eqb ch "l") eqn:El; simpl.
  - apply Ascii.eqb_eq in El. subst ch.
    destruct (atoi arg) as [n|]; [|discriminate].
    destruct ((n <? 0) || (n >? 5)); simpl; [reflexivity|].
    intros ->. destruct (ENABLE_DECODE b), (n >=? 5); reflexivity.
  - intros _. split_tests ch; reflexivity.
Qed.

Lemma switch_normal_continues b o v v' :
  context v = null_context ->
  snd (switch_c b o v) = Normal v' -> continues b o = true.
Proof.
  intros Hv.
  unfold continues, is_help, is_version, is_loglevel, out_of_range,
    switch_c, usage, context_set_log_level.
  rewrite Hv. destruct o as [ch arg dg]; simpl.
  destruct (Ascii.eqb ch "h"); [discriminate|].
  destruct (Ascii.eqb ch "?"); [discriminate|].
  destruct (Ascii.eqb ch "V"); [discriminate|].
  destruct (Ascii.eqb ch "l"); [|reflexivity].
  destruct (atoi arg) as [n|]; [|discriminate].
  destruct ((n <? 0) || (n >? 5)); [reflexivity|].
  destruct (empty_pointer_call_returns b); [reflexivity|discriminate].
Qed.

Lemma parse_loop_continues b pre : forall rs v,
  context v = null_context ->
  forallb (continues b) pre = true ->
  parse_loop b (pre ++ rs) v
  = (loop_events b pre ++ fst (parse_loop b rs (fold_left assign pre v)),
     snd (parse_loop b rs (fold_left assign pre v))).
Proof.
  induction pre as [|o pre IH]; intros rs v Hv H.
  - simpl. now destruct (parse_loop b rs v).
  - simpl in H. apply andb_true_iff in H as [Ho Hpre].
    cbn [app parse_loop loop_events flat_map fold_left].
    unfold option_events at 1.
    assert (Hv' : context (assign v o) = null_context)
      by (rewrite assign_context; exact Hv).
    destruct (Getopt.diag o); cbn [when].
    + rewrite bind_emit.
      rewrite (bind_normal (switch_c b o v) _ _ _
                 (switch_continues b o v Hv Ho)).
      rewrite (IH _ _ Hv' Hpre). cbn [fst snd app].
      rewrite <- !app_assoc. reflexivity.
    + rewrite bind_pure.
      rewrite (bind_normal (switch_c b o v) _ _ _
                 (switch_continues b o v Hv Ho)).
      rewrite (IH _ _ Hv' Hpre). cbn [fst snd app].
      rewrite <- !app_assoc. reflexivity.
Qed.

Lemma parse_loop_continues_all b rs v :
  context v = null_context ->
  forallb (continues b) rs = true ->
  parse_loop b rs v = (loop_events b rs, Normal (fold_left assign rs v)).
Proof.
  intros Hv H. rewrite <- (app_nil_r rs) at 1.
  rewrite (parse_loop_continues b rs [] v Hv H). cbn.
  rewrite app_nil_r. reflexivity.
Qed.

Lemma parse_loop_normal b rs : forall v v',
  context v = null_context ->
  snd (parse_loop b rs v) = Normal v' -> forallb (continues b) rs = true.
Proof.
  induction rs as [|o rs IH]; intros v v' Hv; [reflexivity|].
  cbn [parse_loop forallb].
  assert (Hw : forall k : unit -> M vars,
             snd (bind (when (Getopt.diag o) (emit GetoptMessage)) k)
             = snd (k tt))
    by (intros k; destruct (Getopt.diag o); reflexivity).
  rewrite Hw. unfold bind.
  destruct (snd (switch_c b o v)) as [v1| | |] eqn:Hs; cbn [snd];
    try discriminate.
  intros Hr. rewrite (switch_normal_continues b o v v1 Hv Hs).
  apply (IH v1 v'); [|exact Hr].
  apply switch_keeps in Hs as [_ Hc]. congruence.
Qed.

Lemma positionals_nil : positionals [] = [].
Proof. reflexivity. Qed.

(** The argument phase hands the variables on exactly when the loop goes
    on from every option and at most one word is left over. *)
Lemma configure_normal b argv cfg :
  snd (configure b argv) = Normal cfg ->
  forallb (continues b) (parsed_options argv) = true
  /\ (List.length (positionals argv) <= 1)%nat.
Proof.
  rewrite configure_unfold. cbn [snd].
  destruct (snd (parse_loop b (parsed_options argv) initial_vars))
    as [v| | |] eqn:Hp; try discriminate.
  cbv zeta.
  destruct (_ >? 1) eqn:Hgt; [discriminate|]. intros _.
  split; [exact (parse_loop_normal b _ initial_vars v eq_refl Hp)|].
  destruct argv as [|a0 ws]; [cbn; lia|].
  rewrite argc_minus_optind in Hgt. unfold positionals. lia.
Qed.

(** The argument phase when the loop goes on from every option. *)
Lemma configure_continues b argv :
  forallb (continues b) (parsed_options argv) = true ->
  (List.length (positionals argv) <= 1)%nat ->
  configure b argv
  = (prelude b ++ loop_events b (parsed_options argv),
     Normal match positionals argv with
            | [p] => set_open_file (configuration (parsed_options argv)) p
            | _ => configuration (parsed_options argv)
            end).
Proof.
  intros Hopts Hpos.
  rewrite configure_unfold,
    (parse_loop_continues_all b _ initial_vars eq_refl Hopts),
    fold_assign_initial.
  cbn [fst snd]. cbv zeta.
  destruct argv as [|a0 ws]; [cbn; rewrite app_nil_r; reflexivity|].
  rewrite argc_minus_optind. fold (positionals (a0 :: ws)).
  pose proof (last_word optstring long_options a0 ws) as Hlast.
  fold (positionals (a0 :: ws)) in Hlast.
  destruct (positionals (a0 :: ws)) as [|p [|q r]]; cbn in Hpos; try lia.
  - cbn. rewrite app_nil_r. reflexivity.
  - rewrite (Hlast p eq_refl). cbn. rewrite app_nil_r. reflexivity.
Qed.

(** The argument phase when it runs to its end. *)
Lemma configure_complete b argv :
  forallb goes_on (parsed_options argv) = true ->
  (List.length (positionals argv) <= 1)%nat ->
  configure b argv
  = (prelude b ++ loop_messages (parsed_options argv),
     Normal match positionals argv with
            | [p] => set_open_file (configuration (parsed_options argv)) p
            | _ => configuration (parsed_options argv)
            end).
Proof.
  intros Hopts Hpos.
  rewrite configure_unfold,
    (parse_loop_goes_on b _ initial_vars Hopts), fold_assign_initial.
  cbn [fst snd]. cbv zeta.
  destruct argv as [|a0 ws]; [cbn; rewrite app_nil_r; reflexivity|].
  rewrite argc_minus_optind. fold (positionals (a0 :: ws)).
  pose proof (last_word optstring long_options a0 ws) as Hlast.
  fold (positionals (a0 :: ws)) in Hlast.
  destruct (positionals (a0 :: ws)) as [|p [|q r]]; cbn in Hpos; try lia.
  - cbn. rewrite app_nil_r. reflexivity.
  - rewrite (Hlast p eq_refl). cbn. rewrite app_nil_r. reflexivity.
Qed.

(** X1: when every option is one the loop goes on from and at most one
    word is left over, the argument phase does nothing but log, and it
    leaves the variables as follows: each of -d, -i, -I holds the argument
    of its last occurrence, each of -c, -D, -s clears its flag, a log level
    that the range test turns down changes nothing, and a word left over
    replaces the input file. *)
Theorem configuration_of_arguments b argv :
  forallb goes_on (parsed_options argv) = true ->
  (List.length (positionals argv) <= 1)%nat ->
  configure b argv
  = (prelude b ++ loop_messages (parsed_options argv),
     Normal match positionals argv with
            | [p] => set_open_file (configuration (parsed_options argv)) p
            | _ => configuration (parsed_options argv)
            end).
Proof. exact (configure_complete b argv). Qed.

Lemma configuration_of_arguments_witness :
  configure desktop
    ["pulseview"; "-i"; "a.sr"; "-l"; "9"; "-d"; "fx2lafw"; "-i"; "b.sr";
     "-I"; "vcd"; "-D"; "--driver=demo"]
  = ([ApplicationNew; QDebug invalid_log_level],
     Normal {| ret := 0;
               context := null_context;
               open_file := "b.sr";
               open_file_format := "vcd";
               driver := "demo";
               restore_sessions := true;
               do_scan := false;
               do_logging := true |}).
Proof.
  apply (configuration_of_arguments desktop
           ["pulseview"; "-i"; "a.sr"; "-l"; "9"; "-d"; "fx2lafw";
            "-i"; "b.sr"; "-I"; "vcd"; "-D"; "--driver=demo"]).
  - reflexivity.
  - cbn. lia.
Defined.

Lemma configure_value b argv cfg :
  snd (configure b argv) = Normal cfg ->
  cfg = match positionals argv with
        | [p] => set_open_file (configuration (parsed_options argv)) p
        | _ => configuration (parsed_options argv)
        end.
Proof.
  intros H. destruct (configure_normal b argv cfg H) as [Ho Hp].
  rewrite (configure_continues b argv Ho Hp) in H.
  cbn [snd] in H. congruence.
Qed.

Lemma configure_flags b argv cfg :
  snd (configure b argv) = Normal cfg ->
  open_file_format cfg = last_arg "I" (parsed_options argv) ""
  /\ driver cfg = last_arg "d" (parsed_options argv) ""
  /\ restore_sessions cfg = negb (given "c" (parsed_options argv))
  /\ do_scan cfg = negb (given "D" (parsed_options argv))
  /\ do_logging cfg = negb (given "s" (parsed_options argv))
  /\ open_file cfg
     = match positionals argv with
       | [p] => p
       | _ => last_arg "i" (parsed_options argv) ""
       end.
Proof.
  intros H. rewrite (configure_value b argv cfg H).
  destruct (positionals argv) as [|p [|q r]]; repeat split; reflexivity.
Qed.

(** ** The three phases of a run *)

Lemma bring_up_events b e v :
  Forall (fun ev => bring_up_event ev = true) (fst (bring_up b e v)).
Proof.
  change (every (fun ev => bring_up_event ev = true) (bring_up b e v)).
  unfold bring_up. every_step.
  all: destruct (if_nonzero (ENABLE_STACKTRACE b)); every_step.
  all: destruct (temp_locations e); every_step.
Qed.

Lemma window_events b e v :
  Forall (fun ev => window_block_event ev = true) (fst (window b e v)).
Proof.
  change (every (fun ev => window_block_event ev = true) (window b e v)).
  unfold window. every_step.
  all: try (destruct (negb (empty (open_file v))); every_step).
  all: destruct (prepare_signals_ok e); every_step.
Qed.

Lemma window_block_do_block ev :
  window_block_event ev = true -> do_block_event ev = true.
Proof. destruct ev; try reflexivity; discriminate. Qed.

Lemma through_events b e v dt dr :
  through b e v dt dr -> Forall (fun ev => do_block_event ev = true) dt.
Proof.
  assert (Hw : Forall (fun ev => do_block_event ev = true) (fst (window b e v)))
    by (eapply Forall_impl; [|apply window_events];
        apply window_block_do_block).
  assert (Hu : Forall (fun ev => do_block_event ev = true) (decoder_up b))
    by (unfold decoder_up; destruct (ENABLE_DECODE b); repeat constructor).
  assert (Hd : Forall (fun ev => do_block_event ev = true) (decoder_down b))
    by (unfold decoder_down; destruct (ENABLE_DECODE b); repeat constructor).
  intros [Hdec Hok|Hdec Hr|Hdec Hs Hr|x Hdec Hs Hr];
    repeat (apply Forall_app; split); auto; repeat constructor.
Qed.

Ltac class_case :=
  let ev := fresh "ev" in
  let H := fresh "H" in
  intros ev; destruct ev; try reflexivity; try discriminate;
  cbn; intros H;
  try (apply orb_true_iff in H as [H|H]);
  try (apply String.eqb_eq in H; subst; reflexivity);
  discriminate.

Lemma parse_not_bring_up ev :
  parse_event ev = true -> bring_up_event ev = false.
Proof. revert ev. class_case. Qed.

Lemma parse_not_do_block ev :
  parse_event ev = true -> do_block_event ev = false.
Proof. revert ev. class_case. Qed.

Lemma do_block_not_bring_up ev :
  do_block_event ev = true -> bring_up_event ev = false.
Proof. revert ev. class_case. Qed.

Lemma bring_up_not_do_block ev :
  bring_up_event ev = true -> do_block_event ev = false.
Proof.
  intros H. destruct (do_block_event ev) eqn:Hd; [|reflexivity].
  apply do_block_not_bring_up in Hd. congruence.
Qed.

Lemma bring_up_not_parse ev :
  bring_up_event ev = true -> parse_event ev = false.
Proof.
  intros H. destruct (parse_event ev) eqn:Hd; [|reflexivity].
  apply parse_not_bring_up in Hd. congruence.
Qed.

Lemma do_block_not_parse ev :
  do_block_event ev = true -> parse_event ev = false.
Proof.
  intros H. destruct (parse_event ev) eqn:Hd; [|reflexivity].
  apply parse_not_do_block in Hd. congruence.
Qed.

Lemma not_in_class (f : event -> bool) t ev :
  Forall (fun x => f x = true) t -> f ev = false -> ~ In ev t.
Proof.
  intros H Hf Hin. rewrite Forall_forall in H. apply H in Hin. congruence.
Qed.

Lemma main_normal b e argv cfg :
  snd (configure b argv) = Normal cfg ->
  main b e argv
  = (fst (configure b argv) ++ fst (bring_up b e cfg)
     ++ match snd (bring_up b e cfg) with
        | Normal v => fst (decode_and_run b e v)
        | _ => []
        end,
     outcome_of match snd (bring_up b e cfg) with
                | Normal v => snd (decode_and_run b e v)
                | Return code => Return code
                | Thrown x => Thrown x
                | Undefined => Undefined
                end).
Proof.
  intros Hc. unfold main, run, bind. rewrite Hc. cbn [fst snd].
  destruct (snd (bring_up b e cfg)); cbn [fst snd]; rewrite ?app_nil_r;
    reflexivity.
Qed.

(** The parts of a run, with what is known about each. *)
Lemma run_parts b e argv :
  exists t2 t3,
    trace b e argv = fst (configure b argv) ++ t2 ++ t3
    /\ (t2 = [] /\ t3 = []
          /\ (forall cfg, snd (configure b argv) <> Normal cfg)
        \/ exists cfg,
             snd (configure b argv) = Normal cfg
             /\ t2 = fst (bring_up b e cfg)
             /\ (t3 = []
                   /\ (forall v, snd (bring_up b e cfg) <> Normal v)
                 \/ exists dr,
                      through b e (set_context cfg sr_context) t3 dr
                      /\ ending b e argv = outcome_of dr)).
Proof.
  unfold trace, ending.
  destruct (snd (configure b argv)) as [cfg| | |] eqn:Hc.
  2-4: exists (@nil event); exists (@nil event);
       rewrite main_stops by (intros ?; rewrite Hc; discriminate);
       rewrite !app_nil_r; split; [reflexivity|]; left;
       split; [reflexivity|]; split; [reflexivity|]; discriminate.
  rewrite (main_normal b e argv cfg Hc). cbn [fst snd].
  exists (fst (bring_up b e cfg)).
  pose proof (bring_up_value b e cfg) as Hv.
  destruct (snd (bring_up b e cfg)) as [v| | |] eqn:Hb.
  2-4: exists (@nil event); split; [reflexivity|]; right; exists cfg;
       split; [reflexivity|]; split; [reflexivity|]; left;
       split; [reflexivity|]; intros ?; rewrite Hb; discriminate.
  rewrite (Hv v eq_refl).
  exists (fst (decode_and_run b e (set_context cfg sr_context))).
  split; [reflexivity|]. right. exists cfg.
  split; [reflexivity|]. split; [reflexivity|].
  right. exists (snd (decode_and_run b e (set_context cfg sr_context))).
  split; [apply decode_and_run_through | reflexivity].
Qed.

(** X2: the events of every run come in three phases, in this order: the
    argument phase (application object, option handling, its output), the
    bringing up of settings, logging, the libsigrok context and the fault
    handlers, and the do-block (decoder engine, device manager, window,
    sessions, signal handler, event loop, decoder teardown).  No event of
    a later phase comes before an event of an earlier one. *)
Theorem phases_in_order b e argv :
  exists t1 t2 t3,
    trace b e argv = t1 ++ t2 ++ t3
    /\ Forall (fun ev => parse_event ev = true) t1
    /\ Forall (fun ev => bring_up_event ev = true) t2
    /\ Forall (fun ev => do_block_event ev = true) t3.
Proof.
  destruct (run_parts b e argv) as (t2 & t3 & Ht & H).
  exists (fst (configure b argv)), t2, t3.
  split; [exact Ht|]. split; [apply configure_events|].
  destruct H as [(-> & -> & _)|(cfg & Hc & -> & H)].
  - split; constructor.
  - split; [apply bring_up_events|].
    destruct H as [(-> & _)|(dr & Hthrough & _)]; [constructor|].
    eapply through_events; eassumption.
Qed.

(** ** Where an event of a run comes from *)

Lemma in_bring_up b e argv ev :
  bring_up_event ev = true ->
  In ev (trace b e argv) ->
  exists cfg,
    snd (configure b argv) = Normal cfg /\ In ev (fst (bring_up b e cfg)).
Proof.
  intros Hev Hin.
  destruct (run_parts b e argv) as (t2 & t3 & Ht & H).
  rewrite Ht in Hin. apply in_app_or in Hin as [Hin|Hin].
  { exfalso. revert Hin. apply (not_in_class _ _ _ (configure_events b argv)).
    now apply bring_up_not_parse. }
  destruct H as [(-> & -> & _)|(cfg & Hc & -> & H)]; [destruct Hin|].
  apply in_app_or in Hin as [Hin|Hin]; [now exists cfg|].
  destruct H as [(-> & _)|(dr & Hthrough & _)]; [destruct Hin|].
  exfalso. revert Hin.
  apply (not_in_class _ _ _ (through_events _ _ _ _ _ Hthrough)).
  now apply bring_up_not_do_block.
Qed.

Lemma in_do_block b e argv ev :
  do_block_event ev = true ->
  In ev (trace b e argv) ->
  exists cfg dt dr,
    snd (configure b argv) = Normal cfg
    /\ through b e (set_context cfg sr_context) dt dr
    /\ In ev dt
    /\ trace b e argv = fst (configure b argv) ++ fst (bring_up b e cfg) ++ dt
    /\ ending b e argv = outcome_of dr.
Proof.
  intros Hev Hin.
  destruct (run_parts b e argv) as (t2 & t3 & Ht & H).
  rewrite Ht in Hin. apply in_app_or in Hin as [Hin|Hin].
  { exfalso. revert Hin. apply (not_in_class _ _ _ (configure_events b argv)).
    now apply do_block_not_parse. }
  destruct H as [(-> & -> & _)|(cfg & Hc & -> & H)]; [destruct Hin|].
  apply in_app_or in Hin as [Hin|Hin].
  { exfalso. revert Hin. apply (not_in_class _ _ _ (bring_up_events b e cfg)).
    now apply do_block_not_bring_up. }
  destruct H as [(-> & _)|(dr & Hthrough & He)]; [destruct Hin|].
  exists cfg, t3, dr. repeat split; assumption.
Qed.

Lemma decoder_up_not_window b ev :
  window_block_event ev = true -> ~ In ev (decoder_up b).
Proof.
  unfold decoder_up. destruct (ENABLE_DECODE b); cbn; intros H Hin;
    repeat (destruct Hin as [<-|Hin]; [discriminate H|]); exact Hin.
Qed.

Lemma decoder_down_not_window b ev :
  window_block_event ev = true -> ~ In ev (decoder_down b).
Proof.
  unfold decoder_down. destruct (ENABLE_DECODE b); cbn; intros H Hin;
    repeat (destruct Hin as [<-|Hin]; [discriminate H|]); exact Hin.
Qed.

(** An event of the [try] block comes from the block, run on the
    variables of the argument phase with the context in place, and the
    whole of what the block did is in the trace. *)
Lemma in_window b e argv ev :
  window_block_event ev = true ->
  In ev (trace b e argv) ->
  exists cfg,
    snd (configure b argv) = Normal cfg
    /\ In ev (fst (window b e (set_context cfg sr_context)))
    /\ forall ev',
         In ev' (fst (window b e (set_context cfg sr_context))) ->
         In ev' (trace b e argv).
Proof.
  intros Hev Hin.
  destruct (in_do_block b e argv ev (window_block_do_block ev Hev) Hin)
    as (cfg & dt & dr & Hc & Hthrough & Hdt & Ht & _).
  exists cfg. split; [exact Hc|]. rewrite Ht.
  assert (Hsub : forall t1 t2 ev',
             In ev' (fst (window b e (set_context cfg sr_context))) ->
             In ev' (fst (configure b argv) ++ fst (bring_up b e cfg)
                     ++ decoder_up b
                     ++ fst (window b e (set_context cfg sr_context)) ++ t1
                     ++ t2)).
  { intros t1 t2 ev' H. do 3 (apply in_or_app; right).
    apply in_or_app. now left. }
  destruct Hthrough as [Hd Hok|Hd Hw|Hd Hs Hw|x Hd Hs Hw].
  - exfalso. destruct Hdt as [<-|[<-|[]]]; discriminate Hev.
  - apply in_app_or in Hdt as [Hdt|Hdt];
      [now apply decoder_up_not_window in Hdt|].
    apply in_app_or in Hdt as [Hdt|Hdt];
      [|now apply decoder_down_not_window in Hdt].
    split; [exact Hdt|]. intros ev' H.
    specialize (Hsub (decoder_down b) [] ev' H).
    now rewrite app_nil_r in Hsub.
  - apply in_app_or in Hdt as [Hdt|Hdt];
      [now apply decoder_up_not_window in Hdt|].
    apply in_app_or in Hdt as [Hdt|Hdt].
    + split; [exact Hdt|]. intros ev' H.
      exact (Hsub [QDebug "Exception:"] (decoder_down b) ev' H).
    + exfalso. apply in_app_or in Hdt as [[<-|[]]|Hdt];
        [discriminate Hev | now apply decoder_down_not_window in Hdt].
  - apply in_app_or in Hdt as [Hdt|Hdt];
      [now apply decoder_up_not_window in Hdt|].
    split; [exact Hdt|]. intros ev' H.
    specialize (Hsub [] [] ev' H).
    now rewrite !app_nil_r in Hsub.
Qed.

(** A run whose event loop came back: the whole trace and the exit
    code. *)
Lemma exec_reached b e argv :
  occurs is_exec (trace b e argv) = true ->
  exists cfg,
    snd (configure b argv) = Normal cfg
    /\ snd (window b e (set_context cfg sr_context)) = Normal (exec_result e)
    /\ trace b e argv
       = fst (configure b argv) ++ fst (bring_up b e cfg)
         ++ decoder_up b ++ fst (window b e (set_context cfg sr_context))
         ++ decoder_down b
    /\ ending b e argv = Exit (exec_result e).
Proof.
  intros H. apply existsb_exists in H as (ev & Hin & Hev).
  assert (Hd : do_block_event ev = true) by (destruct ev; try discriminate;
                                             reflexivity).
  destruct (in_do_block b e argv ev Hd Hin)
    as (cfg & dt & dr & Hc & Hthrough & Hdt & Ht & He).
  exists cfg. split; [exact Hc|].
  assert (Hup : ~ In ev (decoder_up b))
    by (apply decoder_up_not_window; destruct ev; try discriminate;
        reflexivity).
  assert (Hnot : forall x,
             snd (window b e (set_context cfg sr_context)) = Thrown x ->
             ~ In ev (fst (window b e (set_context cfg sr_context)))).
  { intros x Hw Hi. apply window_thrown in Hw.
    assert (Ho : occurs is_exec
                   (fst (window b e (set_context cfg sr_context))) = true)
      by (apply existsb_exists; now exists ev).
    congruence. }
  destruct Hthrough as [Hdec Hok|Hdec Hw|Hdec Hs Hw|x Hdec Hs Hw].
  - exfalso. destruct Hdt as [<-|[<-|[]]]; discriminate Hev.
  - repeat split; assumption.
  - exfalso. apply in_app_or in Hdt as [Hdt|Hdt]; [tauto|].
    apply in_app_or in Hdt as [Hdt|Hdt]; [now apply (Hnot _ Hw)|].
    apply in_app_or in Hdt as [[<-|[]]|Hdt]; [discriminate Hev|].
    revert Hdt. apply decoder_down_not_window.
    destruct ev; try discriminate; reflexivity.
  - exfalso. apply in_app_or in Hdt as [Hdt|Hdt]; [tauto|].
    now apply (Hnot _ Hw).
Qed.

(** ** What the options do to a run *)

Lemma window_restore b e v :
  In RestoreSessions (fst (window b e v)) -> restore_sessions v = true.
Proof.
  window_cases b e v; intros H;
    repeat (destruct H as [H|H]; try discriminate H); try reflexivity;
    destruct H.
Qed.

(** X3: a run restores the previous sessions only if -c was not given;
    and a run without -c whose event loop came back has restored them. *)
Theorem clean_disables_restore b e argv :
  (In RestoreSessions (trace b e argv) ->
   given "c" (parsed_options argv) = false)
  /\ (given "c" (parsed_options argv) = false ->
      occurs is_exec (trace b e argv) = true ->
      In RestoreSessions (trace b e argv)).
Proof.
  split.
  - intros Hin.
    destruct (in_window b e argv RestoreSessions eq_refl Hin)
      as (cfg & Hc & Hw & _).
    apply window_restore in Hw. cbn in Hw.
    destruct (configure_flags b argv cfg Hc) as (_ & _ & Hr & _).
    rewrite Hr in Hw. now apply negb_true_iff in Hw.
  - intros Hg Hexec.
    destruct (exec_reached b e argv Hexec) as (cfg & Hc & Hw & Ht & _).
    destruct (configure_flags b argv cfg Hc) as (_ & _ & Hr & _).
    apply window_normal in Hw as [_ Hs].
    assert (Hin : In RestoreSessions
                    (filter session_event
                       (fst (window b e (set_context cfg sr_context))))).
    { rewrite Hs. unfold sessions. cbn [restore_sessions set_context].
      rewrite Hr, Hg. left. reflexivity. }
    apply filter_In in Hin as [Hin _].
    rewrite Ht. do 3 (apply in_or_app; right). apply in_or_app. now left.
Qed.

Lemma clean_disables_restore_witness :
  In RestoreSessions (trace desktop quiet ["pulseview"; "-D"; "capture.sr"]).
Proof.
  apply (proj2 (clean_disables_restore desktop quiet
                  ["pulseview"; "-D"; "capture.sr"])); reflexivity.
Defined.

Lemma bring_up_logging b e v :
  In GlobalSettingsNew (fst (bring_up b e v))
  /\ (In LoggingInit (fst (bring_up b e v)) <-> do_logging v = true).
Proof.
  unfold bring_up, calling, when.
  destruct (do_logging v), (fault e) as [[[] x]|],
    (if_nonzero (ENABLE_STACKTRACE b)), (temp_locations e), (ANDROID b);
    cbn; intuition congruence.
Qed.

Lemma in_trace_of_bring_up b e argv cfg ev :
  snd (configure b argv) = Normal cfg ->
  In ev (fst (bring_up b e cfg)) -> In ev (trace b e argv).
Proof.
  intros Hc Hin. unfold trace. rewrite (main_normal b e argv cfg Hc).
  cbn [fst]. apply in_or_app. right. apply in_or_app. now left.
Qed.

(** X4: the logging subsystem is initialised in exactly the runs that get
    past the argument phase and were not given -s. *)
Theorem log_to_stdout_disables_logging b e argv :
  In LoggingInit (trace b e argv)
  <-> In GlobalSettingsNew (trace b e argv)
      /\ given "s" (parsed_options argv) = false.
Proof.
  split.
  - intros Hin.
    destruct (in_bring_up b e argv LoggingInit eq_refl Hin)
      as (cfg & Hc & Hb).
    destruct (bring_up_logging b e cfg) as [Hg Hl].
    apply Hl in Hb.
    destruct (configure_flags b argv cfg Hc) as (_ & _ & _ & _ & Hlog & _).
    rewrite Hlog in Hb. apply negb_true_iff in Hb.
    split; [|exact Hb]. now apply (in_trace_of_bring_up b e argv cfg).
  - intros [Hin Hs].
    destruct (in_bring_up b e argv GlobalSettingsNew eq_refl Hin)
      as (cfg & Hc & _).
    destruct (bring_up_logging b e cfg) as [_ Hl].
    destruct (configure_flags b argv cfg Hc) as (_ & _ & _ & _ & Hlog & _).
    apply (in_trace_of_bring_up b e argv cfg _ Hc). apply Hl.
    rewrite Hlog, Hs. reflexivity.
Qed.

Lemma log_to_stdout_disables_logging_witness :
  In LoggingInit (trace desktop quiet ["pulseview"; "-c"]).
Proof.
  apply (proj2 (log_to_stdout_disables_logging desktop quiet
                  ["pulseview"; "-c"])).
  split; [cbn; tauto | reflexivity].
Defined.

Lemma window_device_manager b e v ctx drv scan :
  In (DeviceManagerNew ctx drv scan) (fst (window b e v)) ->
  ctx = context v /\ drv = driver v /\ scan = do_scan v.
Proof.
  window_cases b e v; intros H;
    repeat (destruct H as [H|H]; try discriminate H);
    try (injection H as <- <- <-; repeat split; reflexivity);
    destruct H.
Qed.

(** X5: whenever a run constructs the device manager, it hands it the
    libsigrok context that has been created, the argument of the last -d
    (the empty string if there was none) and a scan flag that is false
    exactly when -D was given. *)
Theorem device_manager_arguments b e argv ctx drv scan :
  In (DeviceManagerNew ctx drv scan) (trace b e argv) ->
  ctx = sr_context
  /\ drv = last_arg "d" (parsed_options argv) ""
  /\ scan = negb (given "D" (parsed_options argv)).
Proof.
  intros Hin.
  destruct (in_window b e argv (DeviceManagerNew ctx drv scan) eq_refl Hin)
    as (cfg & Hc & Hw & _).
  apply window_device_manager in Hw as (-> & -> & ->).
  destruct (configure_flags b argv cfg Hc) as (_ & Hd & _ & Hs & _).
  cbn. rewrite Hd, Hs. repeat split; reflexivity.
Qed.

Lemma device_manager_arguments_witness :
  sr_context = sr_context
  /\ "demo" = last_arg "d"
                (parsed_options ["pulseview"; "-d"; "fx2lafw"; "-Dd"; "demo"])
                ""
  /\ false = negb (given "D"
                     (parsed_options
                        ["pulseview"; "-d"; "fx2lafw"; "-Dd"; "demo"])).
Proof.
  apply (device_manager_arguments desktop quiet
           ["pulseview"; "-d"; "fx2lafw"; "-Dd"; "demo"]
           sr_context "demo" false).
  cbn. tauto.
Defined.

(** ** The event loop and the exit code *)

(** X6: when the event loop comes back with a value, that value is the
    value [main] returns, and the decoder engine is torn down after the
    event loop has come back and not before: [srd_exit] is called once
    behind the return of the event loop in a build with ENABLE_DECODE, and
    never in front of it. *)
Theorem event_loop_result_is_returned b e argv r :
  In (Exec r) (trace b e argv) ->
  r = exec_result e
  /\ ending b e argv = Exit r
  /\ exists before after,
       trace b e argv = before ++ Exec r :: after
       /\ ~ In SrdExit before
       /\ count is_srd_exit after = if ENABLE_DECODE b then 1%nat else 0%nat.
Proof.
  intros Hin.
  assert (Hexec : occurs is_exec (trace b e argv) = true)
    by (apply existsb_exists; exists (Exec r); split; [exact Hin|reflexivity]).
  destruct (exec_reached b e argv Hexec) as (cfg & Hc & Hw & Ht & He).
  destruct (in_window b e argv (Exec r) eq_refl Hin)
    as (cfg' & Hc' & Hin' & _).
  assert (cfg' = cfg) by congruence. subst cfg'.
  assert (Hlast : exists wt,
             fst (window b e (set_context cfg sr_context))
             = wt ++ [Exec (exec_result e)]
             /\ Forall (fun ev => window_block_event ev = true) wt
             /\ ~ In (Exec r) wt).
  { clear Ht He Hexec Hin Hc Hc'. revert Hw Hin'.
    window_cases b e (set_context cfg sr_context); intros Hw Hin';
      try discriminate Hw;
      match goal with
      | |- exists wt, ?l = _ /\ _ =>
          exists (removelast l); cbn; split; [reflexivity|];
          split; [repeat constructor|];
          intros H; repeat (destruct H as [H|H]; try discriminate H);
          exact H
      end. }
  destruct Hlast as (wt & Hwt & Hall & Hnot).
  assert (Hr : r = exec_result e).
  { rewrite Hwt in Hin'. apply in_app_or in Hin' as [Hin'|[Hin'|[]]];
      [contradiction | congruence]. }
  subst r. repeat split; [exact He|].
  exists (fst (configure b argv) ++ fst (bring_up b e cfg)
          ++ decoder_up b ++ wt), (decoder_down b).
  split; [|split].
  - rewrite Ht, Hwt. rewrite <- !app_assoc. reflexivity.
  - intros H. apply in_app_or in H as [H|H].
    { revert H. now apply (not_in_class _ _ _ (configure_events b argv)). }
    apply in_app_or in H as [H|H].
    { revert H. now apply (not_in_class _ _ _ (bring_up_events b e cfg)). }
    apply in_app_or in H as [H|H].
    { revert H. unfold decoder_up. destruct (ENABLE_DECODE b); cbn;
        intuition discriminate. }
    revert H. now apply (not_in_class _ _ _ Hall).
  - unfold decoder_down. destruct (ENABLE_DECODE b); reflexivity.
Qed.

Lemma event_loop_result_is_returned_witness :
  ending desktop
    {| srd_init_ok := true; prepare_signals_ok := false; exec_result := 3;
       temp_locations := []; fault := None |}
    ["pulseview"; "-c"]
  = Exit 3.
Proof.
  apply (event_loop_result_is_returned desktop
           {| srd_init_ok := true; prepare_signals_ok := false;
              exec_result := 3; temp_locations := []; fault := None |}
           ["pulseview"; "-c"] 3).
  cbn. tauto.
Defined.

Lemma window_adds b e v r :
  snd (window b e v) = Normal r ->
  filter adds_session (fst (window b e v))
  = [if empty (open_file v)
     then AddDefaultSession
     else AddSessionWithFile (open_file v) (open_file_format v)].
Proof. window_cases b e v; intros H; try discriminate H; reflexivity. Qed.

Lemma filter_false (f g : event -> bool) t :
  Forall (fun ev => g ev = true) t ->
  (forall ev, g ev = true -> f ev = false) ->
  filter f t = [].
Proof.
  intros Ht Hfg. apply filter_none. eapply Forall_impl; [|exact Ht].
  exact Hfg.
Qed.

(** X7: a run whose event loop came back has given the window exactly one
    new session before: the input file with its format if there is an
    input file, the default session if there is none. *)
Theorem window_never_empty b e argv :
  occurs is_exec (trace b e argv) = true ->
  exists cfg,
    snd (configure b argv) = Normal cfg
    /\ filter adds_session (trace b e argv)
       = [if empty (open_file cfg)
          then AddDefaultSession
          else AddSessionWithFile (open_file cfg) (open_file_format cfg)].
Proof.
  intros Hexec.
  destruct (exec_reached b e argv Hexec) as (cfg & Hc & Hw & Ht & _).
  exists cfg. split; [exact Hc|].
  rewrite Ht, !filter_app, (window_adds _ _ _ _ Hw).
  rewrite (filter_false adds_session _ _ (configure_events b argv)),
    (filter_false adds_session _ _ (bring_up_events b e cfg)).
  - unfold decoder_up, decoder_down. destruct (ENABLE_DECODE b); reflexivity.
  - intros ev; destruct ev; try reflexivity; discriminate.
  - intros ev; destruct ev; try reflexivity; discriminate.
Qed.

Lemma window_never_empty_witness :
  exists cfg,
    snd (configure desktop ["pulseview"; "-I"; "vcd"; "-c"]) = Normal cfg
    /\ filter adds_session (trace desktop quiet ["pulseview"; "-I"; "vcd"; "-c"])
       = [if empty (open_file cfg)
          then AddDefaultSession
          else AddSessionWithFile (open_file cfg) (open_file_format cfg)].
Proof.
  apply (window_never_empty desktop quiet ["pulseview"; "-I"; "vcd"; "-c"]).
  reflexivity.
Defined.

Lemma window_signals b e v :
  In (PrepareSignals false) (fst (window b e v)) ->
  In (QWarning no_signal_handler) (fst (window b e v))
  /\ ~ In SignalHandlerNew (fst (window b e v))
  /\ ~ In ConnectIntReceived (fst (window b e v))
  /\ ~ In ConnectTermReceived (fst (window b e v))
  /\ (occurs is_exec (fst (window b e v)) = true
      \/ exists x, fault e = Some (CallExec, x)).
Proof.
  unfold window, calling, when.
  destruct (restore_sessions v), (empty (open_file v)),
    (ENABLE_SIGNALS b), (prepare_signals_ok e),
    (fault e) as [[[] x]|]; cbn; intros H;
    repeat (destruct H as [H|H]; try discriminate H); try contradiction;
    (repeat split;
     [ tauto
     | intros H'; repeat (destruct H' as [H'|H']; try discriminate H');
       exact H' ..
     | first [left; reflexivity | right; eexists; reflexivity] ]).
Qed.

(** X8: when the signal handler cannot be prepared, the run logs a
    warning, builds no signal handler and connects nothing, and goes on
    to the event loop: either the event loop comes back or it is the call
    of the event loop itself that raises. *)
Theorem signal_setup_failure_is_not_fatal b e argv :
  In (PrepareSignals false) (trace b e argv) ->
  In (QWarning no_signal_handler) (trace b e argv)
  /\ ~ In SignalHandlerNew (trace b e argv)
  /\ ~ In ConnectIntReceived (trace b e argv)
  /\ ~ In ConnectTermReceived (trace b e argv)
  /\ (occurs is_exec (trace b e argv) = true
      \/ exists x, fault e = Some (CallExec, x)).
Proof.
  intros Hin.
  destruct (in_window b e argv (PrepareSignals false) eq_refl Hin)
    as (cfg & Hc & Hw & Hsub).
  destruct (window_signals b e _ Hw) as (Hq & Hn & Hi & Ht & Hx).
  assert (Hnot : forall ev,
             window_block_event ev = true ->
             ~ In ev (fst (window b e (set_context cfg sr_context))) ->
             ~ In ev (trace b e argv)).
  { intros ev Hev Hno Hyes.
    destruct (in_window b e argv ev Hev Hyes) as (cfg' & Hc' & Hw' & _).
    assert (cfg' = cfg) by congruence. subst cfg'. contradiction. }
  split; [now apply Hsub|].
  split; [now apply Hnot|]. split; [now apply Hnot|].
  split; [now apply Hnot|].
  destruct Hx as [Hx|Hx]; [left|now right].
  apply existsb_exists in Hx as (ev & Hev & His).
  apply existsb_exists. exists ev. split; [now apply Hsub|exact His].
Qed.

Lemma signal_setup_failure_is_not_fatal_witness :
  In (QWarning no_signal_handler)
    (trace desktop
       {| srd_init_ok := true; prepare_signals_ok := false; exec_result := 0;
          temp_locations := []; fault := None |}
       ["pulseview"])
  /\ ~ In SignalHandlerNew
         (trace desktop
            {| srd_init_ok := true; prepare_signals_ok := false;
               exec_result := 0; temp_locations := []; fault := None |}
            ["pulseview"])
  /\ ~ In ConnectIntReceived
         (trace desktop
            {| srd_init_ok := true; prepare_signals_ok := false;
               exec_result := 0; temp_locations := []; fault := None |}
            ["pulseview"])
  /\ ~ In ConnectTermReceived
         (trace desktop
            {| srd_init_ok := true; prepare_signals_ok := false;
               exec_result := 0; temp_locations := []; fault := None |}
            ["pulseview"])
  /\ (occurs is_exec
        (trace desktop
           {| srd_init_ok := true; prepare_signals_ok := false;
              exec_result := 0; temp_locations := []; fault := None |}
           ["pulseview"]) = true
      \/ exists x,
           fault {| srd_init_ok := true; prepare_signals_ok := false;
                    exec_result := 0; temp_locations := []; fault := None |}
           = Some (CallExec, x)).
Proof.
  apply (signal_setup_failure_is_not_fatal desktop
           {| srd_init_ok := true; prepare_signals_ok := false;
              exec_result := 0; temp_locations := []; fault := None |}
           ["pulseview"]).
  cbn. tauto.
Defined.

(** ** How a run can end *)

Lemma switch_result b o v :
  (exists v', snd (switch_c b o v) = Normal v')
  \/ snd (switch_c b o v) = Return 0
  \/ (snd (switch_c b o v) = Undefined /\ is_loglevel o = true).
Proof.
  unfold switch_c, usage, context_set_log_level, is_loglevel.
  destruct o as [ch arg dg]; simpl.
  destruct (Ascii.eqb ch "h"); [right; left; reflexivity|].
  destruct (Ascii.eqb ch "?"); [right; left; reflexivity|].
  destruct (Ascii.eqb ch "V"); [right; left; reflexivity|]. simpl.
  destruct (Ascii.eqb ch "l").
  - destruct (atoi arg) as [n|]; [|right; right; split; reflexivity].
    destruct ((n <? 0) || (n >? 5)); [left; eexists; reflexivity|].
    destruct (context v), (empty_pointer_call_returns b), (ENABLE_DECODE b),
      (n >=? 5);
      first [left; eexists; reflexivity | right; right; split; reflexivity].
  - left. split_tests ch; eexists; reflexivity.
Qed.

Lemma parse_loop_result b rs : forall v,
  (exists v', snd (parse_loop b rs v) = Normal v')
  \/ snd (parse_loop b rs v) = Return 0
  \/ (snd (parse_loop b rs v) = Undefined /\ given "l" rs = true).
Proof.
  induction rs as [|o rs IH]; intros v; [left; eexists; reflexivity|].
  cbn [parse_loop].
  assert (Hw : forall k : unit -> M vars,
             snd (bind (when (Getopt.diag o) (emit GetoptMessage)) k)
             = snd (k tt))
    by (intros k; destruct (Getopt.diag o); reflexivity).
  rewrite Hw. unfold bind, given. cbn [existsb].
  destruct (switch_result b o v) as [[v1 H]|[H|[H Hl]]]; rewrite H;
    cbn [snd].
  - destruct (IH v1) as [H1|[H1|[H1 Hg]]]; auto.
    right. right. split; [exact H1|]. unfold given in Hg. rewrite Hg.
    apply orb_true_r.
  - right. left. reflexivity.
  - right. right. split; [reflexivity|]. unfold is_loglevel in Hl.
    rewrite Hl. reflexivity.
Qed.

(** The argument phase ends in one of four ways. *)
Lemma configure_result b argv :
  (exists cfg, snd (configure b argv) = Normal cfg)
  \/ snd (configure b argv) = Return 0
  \/ (snd (configure b argv) = Return 1
      /\ In (Stderr only_one_file) (fst (configure b argv)))
  \/ (snd (configure b argv) = Undefined
      /\ given "l" (parsed_options argv) = true).
Proof.
  rewrite configure_unfold. cbn [fst snd].
  destruct (parse_loop_result b (parsed_options argv) initial_vars)
    as [[v H]|[H|[H Hg]]]; rewrite H.
  - cbv zeta. destruct (_ >? 1).
    + right. right. left. split; [reflexivity|].
      do 2 (apply in_or_app; right). left. reflexivity.
    + left. eexists. reflexivity.
  - right. left. reflexivity.
  - right. right. right. split; [reflexivity|exact Hg].
Qed.

Lemma bring_up_result b e v :
  snd (bring_up b e v) = Normal (set_context v sr_context)
  \/ (exists x, snd (bring_up b e v) = Thrown x
                /\ fault e = Some (CallContextCreate, x))
  \/ (snd (bring_up b e v) = Undefined
      /\ if_nonzero (ENABLE_STACKTRACE b) = true
      /\ temp_locations e = []).
Proof.
  unfold bring_up, calling, when.
  destruct (do_logging v), (fault e) as [[[] x]|],
    (if_nonzero (ENABLE_STACKTRACE b)), (temp_locations e), (ANDROID b);
    cbn;
    first [ left; reflexivity
          | right; left; eexists; split; reflexivity
          | right; right; repeat split; reflexivity ].
Qed.

Lemma window_fault b e v y :
  snd (window b e v) = Thrown y ->
  exists site, fault e = Some (site, y) /\ site <> CallContextCreate.
Proof.
  window_cases b e v; intros H; try discriminate H;
    injection H as <-; eexists; (split; [reflexivity|discriminate]).
Qed.

(** Every way a run can end, with what led to it. *)
Lemma ending_cases b e argv :
  ending b e argv = Exit 0
  \/ (ending b e argv = Exit 1 /\ In (Stderr only_one_file) (trace b e argv))
  \/ (ending b e argv = Exit (exec_result e)
      /\ In (Exec (exec_result e)) (trace b e argv))
  \/ (ending b e argv = Terminate
      /\ exists site x,
           fault e = Some (site, x)
           /\ (site = CallContextCreate
               \/ ENABLE_STACKTRACE b <> None
               \/ x = other_exception))
  \/ (ending b e argv = UndefinedBehaviour
      /\ (given "l" (parsed_options argv) = true
          \/ if_nonzero (ENABLE_STACKTRACE b) = true
             /\ temp_locations e = [])).
Proof.
  unfold ending, trace.
  destruct (configure_result b argv) as [[cfg Hc]|[Hc|[[Hc Hin]|[Hc Hg]]]].
  2-4: rewrite main_stops by (intros ?; rewrite Hc; discriminate);
       rewrite Hc; cbn [fst snd]; tauto.
  rewrite (main_normal b e argv cfg Hc). cbn [fst snd].
  destruct (bring_up_result b e cfg) as [Hb|[(x & Hb & Hf)|(Hb & Hs & Ht)]];
    rewrite Hb; cbn [outcome_of].
  - pose proof (decode_and_run_through b e (set_context cfg sr_context)) as Hd.
    destruct Hd as [Hdec Hok|Hdec Hw|Hdec Hs Hw|x Hdec Hs Hw]; cbn [outcome_of].
    + left. cbn. now rewrite (configure_ret b argv cfg Hc).
    + right. right. left. split; [reflexivity|].
      apply window_normal in Hw as [Hexec _].
      apply existsb_exists in Hexec as (ev & Hev & His).
      assert (ev = Exec (exec_result e)).
      { revert Hev His. clear.
        window_cases b e (set_context cfg sr_context); intros H His;
          repeat (destruct H as [H|H]; [subst ev; try discriminate His|]);
          try reflexivity; destruct H. }
      subst ev. do 3 (apply in_or_app; right). apply in_or_app. now left.
    + left. cbn. now rewrite (configure_ret b argv cfg Hc).
    + right. right. right. left. split; [reflexivity|].
      destruct (window_fault _ _ _ _ Hw) as (site & Hf & _).
      exists site, x. split; [exact Hf|]. tauto.
  - right. right. right. left. split; [reflexivity|].
    exists CallContextCreate, x. split; [exact Hf|]. now left.
  - right. right. right. right. split; [reflexivity|]. right. now split.
Qed.

(** X9: the exit code of a run is 0, or it is 1 and the run has written
    "Only one file can be opened." to the error stream, or it is the value
    the event loop came back with. *)
Theorem exit_code_sources b e argv code :
  ending b e argv = Exit code ->
  code = 0
  \/ (code = 1 /\ In (Stderr only_one_file) (trace b e argv))
  \/ (code = exec_result e /\ In (Exec code) (trace b e argv)).
Proof.
  intros H.
  destruct (ending_cases b e argv)
    as [H0|[[H1 Hin]|[[Hr Hin]|[[Ht _]|[Hu _]]]]];
    [ left; congruence
    | right; left; split; [congruence|exact Hin]
    | right; right; assert (code = exec_result e) by congruence; subst code;
      split; [reflexivity|exact Hin]
    | congruence
    | congruence ].
Qed.

Lemma exit_code_sources_witness :
  1 = 0
  \/ (1 = 1
      /\ In (Stderr only_one_file)
           (trace desktop quiet ["pulseview"; "a.sr"; "b.sr"]))
  \/ (1 = exec_result quiet
      /\ In (Exec 1) (trace desktop quiet ["pulseview"; "a.sr"; "b.sr"])).
Proof.
  apply (exit_code_sources desktop quiet ["pulseview"; "a.sr"; "b.sr"] 1).
  reflexivity.
Defined.

(** X10: an exception raised by one of the calls of the [try] block
    (device manager, main window, sessions, event loop) ends the process
    only in a build that defines ENABLE_STACKTRACE, which has no [try]
    block, or when it is not a [std::exception].  When an exception is
    caught, the build does not define ENABLE_STACKTRACE, the exception is
    a [std::exception], the event loop has not come back and [main]
    returns 0, the initial value of [ret]. *)
Theorem exceptions_of_the_try_block b e argv site x :
  fault e = Some (site, x) ->
  site <> CallContextCreate ->
  (ending b e argv = Terminate ->
   ENABLE_STACKTRACE b <> None \/ x = other_exception)
  /\ (occurs is_exception_caught (trace b e argv) = true ->
      ENABLE_STACKTRACE b = None
      /\ x = std_exception
      /\ occurs is_exec (trace b e argv) = false
      /\ ending b e argv = Exit 0).
Proof.
  intros Hf Hsite. split.
  - intros H.
    destruct (ending_cases b e argv)
      as [H0|[[H1 _]|[[Hr _]|[[_ Ht]|[Hu _]]]]]; try congruence.
    destruct Ht as (site' & x' & Hf' & Ht).
    assert (site' = site /\ x' = x) as [-> ->] by (split; congruence).
    tauto.
  - intros H. apply existsb_exists in H as (ev & Hin & Hev).
    assert (Hd : do_block_event ev = true).
    { destruct ev; try discriminate Hev. cbn in Hev |- *.
      apply String.eqb_eq in Hev. subst. reflexivity. }
    destruct (in_do_block b e argv ev Hd Hin)
      as (cfg & dt & dr & Hc & Hthrough & Hdt & Ht & He).
    assert (Hno : forall t, occurs is_exception_caught t = false ->
                            ~ In ev t)
      by (intros t Hocc Hi;
          assert (occurs is_exception_caught t = true)
            by (apply existsb_exists; now exists ev);
          congruence).
    pose proof (window_caught b e (set_context cfg sr_context)) as Ho.
    destruct Hthrough as [Hdec Hok|Hdec Hw|Hdec Hs Hw|y Hdec Hs Hw].
    + exfalso. revert Hdt. apply Hno. reflexivity.
    + exfalso. revert Hdt. apply Hno. rewrite !occurs_app, Ho.
      unfold decoder_up, decoder_down. destruct (ENABLE_DECODE b);
        reflexivity.
    + split; [exact Hs|].
      destruct (window_fault _ _ _ _ Hw) as (site' & Hf' & _).
      split; [congruence|]. split.
      * destruct (occurs is_exec (trace b e argv)) eqn:Hx; [|reflexivity].
        destruct (exec_reached b e argv Hx) as (cfg' & Hc' & Hw' & _).
        congruence.
      * rewrite He. cbn. now rewrite (configure_ret b argv cfg Hc).
    + exfalso. revert Hdt. apply Hno. rewrite !occurs_app, Ho.
      unfold decoder_up. destruct (ENABLE_DECODE b); reflexivity.
Qed.

Lemma exceptions_of_the_try_block_witness :
  (ending desktop (failing CallShow std_exception) ["pulseview"] = Terminate ->
   ENABLE_STACKTRACE desktop <> None \/ std_exception = other_exception)
  /\ (occurs is_exception_caught
        (trace desktop (failing CallShow std_exception) ["pulseview"]) = true ->
      ENABLE_STACKTRACE desktop = None
      /\ std_exception = std_exception
      /\ occurs is_exec
           (trace desktop (failing CallShow std_exception) ["pulseview"])
         = false
      /\ ending desktop (failing CallShow std_exception) ["pulseview"]
         = Exit 0).
Proof.
  apply (exceptions_of_the_try_block desktop (failing CallShow std_exception)
           ["pulseview"] CallShow std_exception).
  - reflexivity.
  - discriminate.
Defined.

(** X11: a run is free of undefined behaviour whenever no log level
    option is given and, in a build with the fault handlers, the platform
    has a temporary location. *)
Theorem defined_without_loglevel b e argv :
  given "l" (parsed_options argv) = false ->
  (if_nonzero (ENABLE_STACKTRACE b) = true -> temp_locations e <> []) ->
  ending b e argv <> UndefinedBehaviour.
Proof.
  intros Hl Ht H.
  destruct (ending_cases b e argv)
    as [H0|[[H1 _]|[[Hr _]|[[Hx _]|[_ Hu]]]]];
    [congruence | congruence | congruence | congruence |].
  destruct Hu as [Hu|[Hs He]]; [congruence|]. now apply Ht.
Qed.

Lemma defined_without_loglevel_witness :
  ending desktop_stacktrace quiet ["pulseview"; "-D"; "capture.sr"]
  <> UndefinedBehaviour.
Proof.
  apply (defined_without_loglevel desktop_stacktrace quiet
           ["pulseview"; "-D"; "capture.sr"]).
  - reflexivity.
  - intros _. discriminate.
Defined.

(** X12: the two ways of dealing with a failure exclude each other by
    build: an exception is caught only in a build that does not define
    ENABLE_STACKTRACE, and a fault handler is installed only in a build
    that defines it as non-zero.  A build that defines it as 0 has
    neither. *)
Theorem catch_and_handlers_exclude b e argv :
  (occurs is_exception_caught (trace b e argv) = true ->
   ENABLE_STACKTRACE b = None)
  /\ (occurs is_signal (trace b e argv) = true ->
      if_nonzero (ENABLE_STACKTRACE b) = true).
Proof.
  split.
  - intros H. apply existsb_exists in H as (ev & Hin & Hev).
    assert (Hd : do_block_event ev = true).
    { destruct ev; try discriminate Hev. cbn in Hev |- *.
      apply String.eqb_eq in Hev. subst. reflexivity. }
    destruct (in_do_block b e argv ev Hd Hin)
      as (cfg & dt & dr & _ & Hthrough & Hdt & _).
    destruct Hthrough as [Hdec Hok|Hdec Hw|Hdec Hs Hw|x Hdec Hs Hw];
      try exact Hs; exfalso;
      assert (Ho : occurs is_exception_caught
                     (fst (window b e (set_context cfg sr_context))) = false)
        by apply window_caught;
      assert (Hno : forall t, occurs is_exception_caught t = false ->
                              ~ In ev t)
        by (intros t Ht Hi;
            assert (occurs is_exception_caught t = true)
              by (apply existsb_exists; now exists ev);
            congruence);
      revert Hdt; apply Hno; rewrite ?occurs_app, ?Ho;
      unfold decoder_up, decoder_down; destruct (ENABLE_DECODE b);
      reflexivity.
  - intros H. apply existsb_exists in H as (ev & Hin & Hev).
    assert (Hb : bring_up_event ev = true)
      by (destruct ev; try discriminate Hev; reflexivity).
    destruct (in_bring_up b e argv ev Hb Hin) as (cfg & _ & Hi).
    revert Hi. unfold bring_up, calling, when.
    destruct (do_logging cfg), (fault e) as [[[] x]|],
      (if_nonzero (ENABLE_STACKTRACE b)), (temp_locations e), (ANDROID b);
      cbn; intros Hi; try reflexivity;
      repeat (destruct Hi as [Hi|Hi]; [subst ev; discriminate Hev|]);
      destruct Hi.
Qed.

Lemma catch_and_handlers_exclude_witness :
  ENABLE_STACKTRACE desktop = None.
Proof.
  apply (proj1 (catch_and_handlers_exclude desktop
                  (failing CallShow std_exception) ["pulseview"])).
  reflexivity.
Defined.

(** ** More on the fault handler *)

(** X13: whatever the dispositions are, the delivery of a signal comes to
    an end after at most two runs of the handler: three levels of nesting
    are enough and more change nothing, at most two dumps are written, and
    the process is killed, by the signal itself if its disposition was the
    default one and by SIGABRT otherwise. *)
Theorem fault_delivery_ends p signum n :
  (3 <= n)%nat ->
  deliver n signum p = deliver 3 signum p
  /\ exists t,
       deliver 3 signum p = Some t
       /\ (count is_dump t <= 2)%nat
       /\ last t (Raise signum)
          = KilledBy match handlers p signum with
                     | SIG_DFL => signum
                     | SIG_signal_handler => SIGABRT
                     end.
Proof.
  intros Hn. destruct n as [|[|[|n]]]; try lia.
  cbn [deliver]. unfold signal_handler.
  cbn [signal handlers stacktrace_filename].
  rewrite Z.eqb_refl.
  destruct (handlers p signum);
    [split; [reflexivity|]; eexists; repeat split; cbn; lia|].
  destruct (SIGABRT =? signum); [|destruct (handlers p SIGABRT)];
    (split; [reflexivity|]; eexists; split; [reflexivity|];
     split; [cbn; lia | reflexivity]).
Qed.

Lemma fault_delivery_ends_witness :
  deliver 7 SIGSEGV
    (process_after (trace desktop_stacktrace quiet ["pulseview"]))
  = deliver 3 SIGSEGV
      (process_after (trace desktop_stacktrace quiet ["pulseview"]))
  /\ exists t,
       deliver 3 SIGSEGV
         (process_after (trace desktop_stacktrace quiet ["pulseview"]))
       = Some t
       /\ (count is_dump t <= 2)%nat
       /\ last t (Raise SIGSEGV)
          = KilledBy
              match
                handlers
                  (process_after
                     (trace desktop_stacktrace quiet ["pulseview"]))
                  SIGSEGV
              with
              | SIG_DFL => SIGSEGV
              | SIG_signal_handler => SIGABRT
              end.
Proof.
  apply (fault_delivery_ends
           (process_after (trace desktop_stacktrace quiet ["pulseview"]))
           SIGSEGV 7).
  lia.
Defined.

(** X14: in a run that has installed the handlers, an abort is dumped
    once and a segmentation fault twice, to the same file, the second dump
    coming from inside the handler of the abort that the first handler
    raised; either way the process ends killed by SIGABRT. *)
Theorem fault_traces b e argv tp tps n :
  temp_locations e = tp :: tps ->
  In (Signal SIGABRT SIG_signal_handler) (trace b e argv) ->
  (3 <= n)%nat ->
  deliver n SIGABRT (process_after (trace b e argv))
  = Some [Signal SIGABRT SIG_DFL;
          SafeDumpTo (stacktrace_file tp);
          Raise SIGABRT;
          KilledBy SIGABRT]
  /\ deliver n SIGSEGV (process_after (trace b e argv))
     = Some [Signal SIGSEGV SIG_DFL;
             SafeDumpTo (stacktrace_file tp);
             Raise SIGABRT;
             Signal SIGABRT SIG_DFL;
             SafeDumpTo (stacktrace_file tp);
             Raise SIGABRT;
             KilledBy SIGABRT].
Proof.
  intros Ht Hin Hn.
  pose proof (main_installs b e argv tp tps Ht Hin) as Hp.
  revert Hp. generalize (process_after (trace b e argv)).
  intros p (Ha & Hv & Hf).
  destruct n as [|[|[|n]]]; try lia.
  split.
  - cbn [deliver]. rewrite Ha. unfold signal_handler.
    cbn [deliver signal handlers stacktrace_filename].
    rewrite Z.eqb_refl, Hf. reflexivity.
  - cbn [deliver]. rewrite Hv. unfold signal_handler at 1.
    cbn [deliver signal handlers stacktrace_filename].
    replace (SIGABRT =? SIGSEGV) with false by reflexivity.
    rewrite Ha. unfold signal_handler.
    cbn [deliver signal handlers stacktrace_filename].
    rewrite Z.eqb_refl, Hf. reflexivity.
Qed.

Lemma fault_traces_witness :
  deliver 3 SIGABRT
    (process_after (trace desktop_stacktrace quiet ["pulseview"]))
  = Some [Signal SIGABRT SIG_DFL;
          SafeDumpTo (stacktrace_file "/tmp");
          Raise SIGABRT;
          KilledBy SIGABRT]
  /\ deliver 3 SIGSEGV
       (process_after (trace desktop_stacktrace quiet ["pulseview"]))
     = Some [Signal SIGSEGV SIG_DFL;
             SafeDumpTo (stacktrace_file "/tmp");
             Raise SIGABRT;
             Signal SIGABRT SIG_DFL;
             SafeDumpTo (stacktrace_file "/tmp");
             Raise SIGABRT;
             KilledBy SIGABRT].
Proof.
  apply (fault_traces desktop_stacktrace quiet ["pulseview"] "/tmp" [] 3).
  - reflexivity.
  - cbn. tauto.
  - lia.
Defined.

(** ** The usage text and the option table *)

Lemma contains_append needle a : forall b,
  contains needle b = true -> contains needle (a ++ b)%string = true.
Proof.
  induction a as [|ch a IH]; intros b H; [exact H|].
  cbn [append contains]. rewrite (IH b H). apply orb_true_r.
Qed.

(** X15: the usage text offers a long option "--no-scan", but the option
    table of [main] has no such row: whatever follows it, an argument
    vector that starts with "--no-scan" gets the complaint of
    [getopt_long] and the usage text, and the run returns 0 with no
    subsystem touched.  The short form -D is in the table. *)
Theorem no_scan_long_option_is_unknown b e a0 rest :
  contains "-D, --no-scan" (usage_text (PV_BIN_NAME b)) = true
  /\ main b e (a0 :: "--no-scan" :: rest)
     = (prelude b ++ [GetoptMessage; Stdout (usage_text (PV_BIN_NAME b))],
        Exit 0)
  /\ given "D" (parsed_options (a0 :: "-D" :: rest)) = true.
Proof.
  split; [|split].
  - unfold usage_text. cbn [text_of_lines].
    do 4 apply contains_append. reflexivity.
  - assert (Hopts : parsed_options (a0 :: "--no-scan" :: rest)
                    = [] ++ Getopt.complaint
                      :: Getopt.results
                           (Getopt.scan optstring long_options rest))
      by reflexivity.
    rewrite main_stops; rewrite configure_unfold, Hopts,
      (parse_loop_stops b [] Getopt.complaint _ initial_vars eq_refl eq_refl);
      cbn [fst snd].
    + rewrite app_nil_r. reflexivity.
    + discriminate.
  - reflexivity.
Qed.

(** ** The decoder engine *)

(** X16: the decoder engine is touched only in a build that has it; the
    outcome recorded for [srd_init] is the one the library gave, and the
    decoders are loaded in exactly the runs in which [srd_init]
    succeeded. *)
Theorem decoders_loaded_after_init b e argv :
  (forall ok, In (SrdInit ok) (trace b e argv) ->
              ENABLE_DECODE b = true /\ ok = srd_init_ok e)
  /\ (In SrdDecoderLoadAll (trace b e argv)
      <-> In (SrdInit true) (trace b e argv)).
Proof.
  assert (Hw : forall v ev,
             window_block_event ev = false ->
             ~ In ev (fst (window b e v))).
  { intros v ev Hev. now apply (not_in_class _ _ _ (window_events b e v)). }
  assert (Hup : forall cfg dt dr ev,
             through b e (set_context cfg sr_context) dt dr ->
             window_block_event ev = false ->
             ev <> QDebug "Exception:" -> ev <> SrdExit ->
             ev <> QDebug decode_init_failed ->
             In ev dt ->
             (ev = SrdInit false /\ ENABLE_DECODE b = true
              /\ srd_init_ok e = false /\ dt = [SrdInit false;
                                               QDebug decode_init_failed])
             \/ (In ev (decoder_up b)
                 /\ ENABLE_DECODE b = true /\ srd_init_ok e = true
                 /\ exists rest, dt = decoder_up b ++ rest)).
  { intros cfg dt dr ev Hthrough Hev Hx Hexit Hfail Hin.
    assert (Hdec : ENABLE_DECODE b && negb (srd_init_ok e) = false ->
                   In ev (decoder_up b) ->
                   ENABLE_DECODE b = true /\ srd_init_ok e = true).
    { unfold decoder_up. destruct (ENABLE_DECODE b), (srd_init_ok e);
        cbn; intros; try discriminate; tauto. }
    assert (Hdown : ~ In ev (decoder_down b)).
    { unfold decoder_down. destruct (ENABLE_DECODE b); cbn; intuition. }
    destruct Hthrough as [Hd Hok|Hd Hr|Hd Hs Hr|x Hd Hs Hr].
    - left. destruct Hin as [<-|[<-|[]]]; [tauto|congruence].
    - right. apply in_app_or in Hin as [Hin|Hin].
      + destruct (Hdec Hd Hin). repeat split; eauto.
      + exfalso. apply in_app_or in Hin as [Hin|Hin];
          [now apply (Hw _ _ Hev) in Hin | contradiction].
    - right. apply in_app_or in Hin as [Hin|Hin].
      + destruct (Hdec Hd Hin). repeat split; eauto.
      + exfalso. apply in_app_or in Hin as [Hin|Hin];
          [now apply (Hw _ _ Hev) in Hin|].
        apply in_app_or in Hin as [[<-|[]]|Hin]; [congruence|contradiction].
    - right. apply in_app_or in Hin as [Hin|Hin].
      + destruct (Hdec Hd Hin). repeat split; eauto.
      + exfalso. now apply (Hw _ _ Hev) in Hin. }
  split; [intros ok Hin|split; intros Hin].
  - destruct (in_do_block b e argv (SrdInit ok) eq_refl Hin)
      as (cfg & dt & dr & _ & Hthrough & Hdt & _).
    destruct (Hup cfg dt dr (SrdInit ok) Hthrough eq_refl)
      as [(Heq & Hd & Hok & _)|(Hi & Hd & Hok & _)];
      try discriminate; try assumption.
    + injection Heq as ->. split; congruence.
    + revert Hi. unfold decoder_up. rewrite Hd. cbn.
      intros [Heq|[Heq|[]]]; [|discriminate Heq].
      injection Heq as <-. split; congruence.
  - destruct (in_do_block b e argv SrdDecoderLoadAll eq_refl Hin)
      as (cfg & dt & dr & _ & Hthrough & Hdt & Ht & _).
    destruct (Hup cfg dt dr SrdDecoderLoadAll Hthrough eq_refl)
      as [(Heq & _)|(Hi & Hd & Hok & rest & Hrest)];
      try discriminate; try assumption.
    rewrite Ht, Hrest. unfold decoder_up. rewrite Hd.
    do 2 (apply in_or_app; right). left. reflexivity.
  - destruct (in_do_block b e argv (SrdInit true) eq_refl Hin)
      as (cfg & dt & dr & _ & Hthrough & Hdt & Ht & _).
    destruct (Hup cfg dt dr (SrdInit true) Hthrough eq_refl)
      as [(Heq & _)|(Hi & Hd & Hok & rest & Hrest)];
      try discriminate; try assumption.
    rewrite Ht, Hrest. unfold decoder_up. rewrite Hd.
    do 2 (apply in_or_app; right). right. left. reflexivity.
Qed.

Lemma decoders_loaded_after_init_witness :
  In (SrdInit true)
    (trace desktop (failing CallShow other_exception) ["pulseview"]).
Proof.
  apply (proj1 (proj2 (decoders_loaded_after_init desktop
                         (failing CallShow other_exception) ["pulseview"]))).
  cbn. tauto.
Defined.

(** ** The error stream *)

Lemma parse_loop_no_stderr b rs : forall v,
  every (fun ev => is_stderr ev = false) (parse_loop b rs v).
Proof.
  induction rs as [|o rs IH]; intros v; simpl; every_step.
  - unfold switch_c, usage, context_set_log_level.
    destruct o as [ch arg dg]; simpl.
    split_tests ch; simpl; every_step.
    destruct (atoi arg) as [n|]; every_step.
    destruct ((n <? 0) || (n >? 5)); every_step.
    destruct (context v); every_step.
    all: destruct (empty_pointer_call_returns b); every_step.
  - apply IH.
Qed.

(** X17: the only text [main] itself ever writes to the error stream is
    "Only one file can be opened."; a run that writes it returns 1, has at
    least two words left over and has touched no subsystem. *)
Theorem error_stream_use b e argv text :
  In (Stderr text) (trace b e argv) ->
  text = only_one_file
  /\ ending b e argv = Exit 1
  /\ (2 <= List.length (positionals argv))%nat
  /\ occurs subsystem (trace b e argv) = false.
Proof.
  intros Hin.
  destruct (run_parts b e argv) as (t2 & t3 & Ht & H).
  assert (Hcfg : In (Stderr text) (fst (configure b argv))).
  { rewrite Ht in Hin. apply in_app_or in Hin as [Hin|Hin]; [exact Hin|].
    exfalso. destruct H as [(-> & -> & _)|(cfg & Hc & -> & H)];
      [destruct Hin|].
    apply in_app_or in Hin as [Hin|Hin].
    - revert Hin. now apply (not_in_class _ _ _ (bring_up_events b e cfg)).
    - destruct H as [(-> & _)|(dr & Hthrough & _)]; [destruct Hin|].
      revert Hin.
      now apply (not_in_class _ _ _ (through_events _ _ _ _ _ Hthrough)). }
  clear Ht H t2 t3.
  assert (Hret : snd (configure b argv) = Return 1
                 /\ text = only_one_file
                 /\ (Z.of_nat (List.length argv)
                     - Getopt.optind
                         (Getopt.getopt_long optstring long_options argv)
                     >? 1) = true).
  { revert Hcfg. rewrite configure_unfold. cbn [fst snd]. intros Hcfg.
    apply in_app_or in Hcfg as [Hcfg|Hcfg].
    { exfalso. revert Hcfg. unfold prelude.
      destruct (ANDROID b); cbn; intuition discriminate. }
    apply in_app_or in Hcfg as [Hcfg|Hcfg].
    { exfalso. revert Hcfg.
      apply (not_in_class (fun ev => negb (is_stderr ev))).
      - eapply Forall_impl; [|apply (parse_loop_no_stderr b _ initial_vars)].
        intros ev ->. reflexivity.
      - reflexivity. }
    destruct (snd (parse_loop b (parsed_options argv) initial_vars));
      try destruct Hcfg.
    cbv zeta. destruct (_ >? 1); [|destruct Hcfg].
    destruct Hcfg as [Heq|[]]. injection Heq as <-.
    repeat split; reflexivity. }
  destruct Hret as (Hret & -> & Hgt).
  assert (Hm : main b e argv = (fst (configure b argv), Exit 1)).
  { rewrite main_stops by (intros ?; rewrite Hret; discriminate).
    rewrite Hret. reflexivity. }
  split; [reflexivity|]. unfold ending, trace. rewrite Hm. cbn [fst snd].
  split; [reflexivity|]. split.
  - destruct argv as [|a0 ws]; [discriminate Hgt|].
    rewrite argc_minus_optind in Hgt. unfold positionals. lia.
  - apply occurs_none. eapply Forall_impl; [|apply configure_events].
    apply parse_event_no_subsystem.
Qed.

Lemma error_stream_use_witness :
  only_one_file = only_one_file
  /\ ending desktop quiet ["pulseview"; "a.sr"; "-c"; "b.sr"; "c.sr"] = Exit 1
  /\ (2 <= List.length
             (positionals ["pulseview"; "a.sr"; "-c"; "b.sr"; "c.sr"]))%nat
  /\ occurs subsystem
       (trace desktop quiet ["pulseview"; "a.sr"; "-c"; "b.sr"; "c.sr"])
     = false.
Proof.
  apply (error_stream_use desktop quiet
           ["pulseview"; "a.sr"; "-c"; "b.sr"; "c.sr"] only_one_file).
  cbn. tauto.
Defined.

(** * The log level and the input file *)

(** ** Options the loop goes through *)











Lemma last_arg_app ch rs1 rs2 d :
  last_arg ch (rs1 ++ rs2) d = last_arg ch rs2 (last_arg ch rs1 d).
Proof. unfold last_arg. apply fold_left_app. Qed.

Lemma last_arg_not_given ch rs : forall d,
  given ch rs = false -> last_arg ch rs d = d.
Proof.
  induction rs as [|o rs IH]; intros d; [reflexivity|].
  unfold given, last_arg. cbn [existsb fold_left].
  destruct (Ascii.eqb (Getopt.c o) ch); [discriminate|].
  exact (IH d).
Qed.






(** C10: with [-i] or [--input-file] among the options and exactly one
    word that is not an option, that word is the input file.  The last
    [-i] leaves its argument in [open_file] at the end of the loop; line
    199 then stores the word over it, so that the argument handling,
    when it runs to its end, ends with [open_file] equal to the word; no
    session is ever added with another file; and a run that reaches the
    event loop has added exactly one session before, with that word as
    the file and the format of [-I], or the default session if the word
    is the empty text. *)
Theorem positional_replaces_input_file b e argv pre o post p :
  parsed_options argv = pre ++ o :: post ->
  Ascii.eqb (Getopt.c o) "i" = true ->
  given "i" post = false ->
  positionals argv = [p] ->
  open_file (configuration (parsed_options argv)) = Getopt.optarg o
  /\ (forallb (continues b) (parsed_options argv) = true ->
      configure b argv
      = (prelude b ++ loop_events b (parsed_options argv),
         Normal (set_open_file (configuration (parsed_options argv)) p)))
  /\ (forall cfg, snd (configure b argv) = Normal cfg -> open_file cfg = p)
  /\ (forall file format,
        In (AddSessionWithFile file format) (trace b e argv) -> file = p)
  /\ (occurs is_exec (trace b e argv) = true ->
      filter adds_session (trace b e argv)
      = [if empty p
         then AddDefaultSession
         else AddSessionWithFile p
                (last_arg "I" (parsed_options argv) "")]).
Proof.
  intros Hopts Ho Hpost Hp.
  assert (Hv : forall cfg,
             snd (configure b argv) = Normal cfg ->
             cfg = set_open_file (configuration (parsed_options argv)) p)
    by (intros cfg Hc; rewrite (configure_value b argv cfg Hc), Hp;
        reflexivity).
  split; [|split; [|split; [|split]]].
  - cbn [configuration open_file]. rewrite Hopts.
    replace (pre ++ o :: post) with ((pre ++ [o]) ++ post)
      by (rewrite <- app_assoc; reflexivity).
    rewrite !last_arg_app, (last_arg_not_given _ _ _ Hpost).
    unfold last_arg at 1. cbn [fold_left]. now rewrite Ho.
  - intros Hall.
    rewrite (configure_continues b argv Hall) by (rewrite Hp; cbn; lia).
    now rewrite Hp.
  - intros cfg Hc. rewrite (Hv cfg Hc). reflexivity.
  - intros file format Hin.
    destruct (main_sessions_within b e argv (AddSessionWithFile file format)
                eq_refl Hin)
      as (cfg & Hc & Hs).
    rewrite (Hv cfg Hc) in Hs. unfold sessions in Hs.
    cbn [open_file set_open_file open_file_format] in Hs.
    apply in_app_or in Hs as [Hs|Hs].
    + destruct (restore_sessions _); [destruct Hs as [Hs|[]]|destruct Hs];
        discriminate Hs.
    + destruct Hs as [Hs|[]]. destruct (empty p); [discriminate Hs|].
      now injection Hs as -> _.
  - intros Hexec.
    destruct (exec_reached b e argv Hexec) as (cfg & Hc & Hw & Ht & _).
    rewrite Ht, !filter_app, (window_adds _ _ _ _ Hw).
    rewrite (filter_false adds_session _ _ (configure_events b argv)),
      (filter_false adds_session _ _ (bring_up_events b e cfg)).
    + rewrite (Hv cfg Hc).
      unfold decoder_up, decoder_down. destruct (ENABLE_DECODE b);
        reflexivity.
    + intros ev; destruct ev; try reflexivity; discriminate.
    + intros ev; destruct ev; try reflexivity; discriminate.
Qed.

Lemma positional_replaces_input_file_witness :
  configure desktop ["pulseview"; "-i"; "a.sr"; "b.sr"; "-I"; "vcd"]
  = ([ApplicationNew],
     Normal (set_open_file
               (set_open_file_format (set_open_file initial_vars "a.sr")
                  "vcd")
               "b.sr"))
  /\ filter adds_session
       (trace desktop quiet ["pulseview"; "-i"; "a.sr"; "b.sr"; "-I"; "vcd"])
     = [AddSessionWithFile "b.sr" "vcd"].
Proof.
  destruct (positional_replaces_input_file desktop quiet
              ["pulseview"; "-i"; "a.sr"; "b.sr"; "-I"; "vcd"]
              [] (Getopt.with_arg "i" "a.sr") [Getopt.with_arg "I" "vcd"]
              "b.sr")
    as (_ & Hc & _ & _ & Hx).
  - reflexivity.
  - reflexivity.
  - reflexivity.
  - reflexivity.
  - split; [apply Hc|apply Hx]; reflexivity.
Defined.
